(** * crdt-playground: the replica wrapper and the simulated sync layer

    A shallow embedding of [src/crdt/peer.ts] (class [CRDTPeer]) and
    [src/crdt/sync-engine.ts] (class [SyncEngine]).

    The CRDT document itself ([Y.Doc] of the Yjs library) is an external
    collaborator: it enters the development as the interface [DocEngine],
    and everything about the two classes is stated for an arbitrary
    implementation of that interface.  A small last-writer-wins engine
    ([RefEngine]) implements it, so that the scenarios of the test-suite
    can be evaluated. *)

From Stdlib Require Import ZArith String List Lia Bool.
From Stdlib Require DecimalString.
From Stdlib Require Import Floats.SpecFloat.
From stdpp Require Import base option list gmap strings.

Local Open Scope string_scope.
Local Open Scope Z_scope.
Local Open Scope list_scope.

(* ================================================================== *)
(** * Numbers

    A JavaScript number is an IEEE 754 binary64 value.  The counters are
    whole numbers and sums of them: [Number] holds the whole numbers
    ([Finite z] is a number when [z] has a significand of 53 bits and is at
    most [MAX_VALUE] in magnitude), the two infinities a sum can overflow
    to, and [NaN].  A sum is what the
    code computes: the exact sum, rounded to a significand of 53 bits with
    ties going to the even significand, and infinite beyond [MAX_VALUE]. *)
Inductive Number : Type :=
| Finite (z : Z)
| Infinity (negative : bool)
| NaN.

Coercion Finite : Z >-> Number.

(** [Number.MAX_VALUE] *)
Definition MAX_VALUE : Z := 2 ^ 1024 - 2 ^ 971.

(** [Number.MAX_SAFE_INTEGER + 1]: up to here every whole number is a
    binary64 value. *)
Definition SAFE : Z := 2 ^ 53.

(** The whole number nearest to [z] whose significand has 53 bits; of two
    equally near ones, the one with the even significand. *)
Definition round_to_nearest_even (z : Z) : Z :=
  let a := Z.abs z in
  let e := Z.log2 a + 1 - 53 in
  if e <=? 0 then z
  else
    let q := Z.shiftr a e in
    let r := a - Z.shiftl q e in
    let half := Z.shiftl 1 (e - 1) in
    let q' := if (half <? r) || ((r =? half) && Z.odd q) then q + 1 else q in
    Z.sgn z * Z.shiftl q' e.

(** The number the exact result [z] of an operation is delivered as. *)
Definition Number_of_exact (z : Z) : Number :=
  let r := round_to_nearest_even z in
  if Z.abs r <=? MAX_VALUE then Finite r else Infinity (r <? 0).

(** [x + y] *)
Definition Number_add (x y : Number) : Number :=
  match x, y with
  | NaN, _ | _, NaN => NaN
  | Infinity s, Infinity s' => if Bool.eqb s s' then Infinity s else NaN
  | Infinity s, Finite _ | Finite _, Infinity s => Infinity s
  | Finite a, Finite b => Number_of_exact (a + b)
  end.

(** [- y] *)
Definition Number_opp (y : Number) : Number :=
  match y with
  | Finite b => Finite (- b)
  | Infinity s => Infinity (negb s)
  | NaN => NaN
  end.

(** [x - y] *)
Definition Number_sub (x y : Number) : Number := Number_add x (Number_opp y).

#[export] Instance Number_eq_dec : EqDecision Number.
Proof. solve_decision. Defined.

#[export] Instance Number_countable : Countable Number :=
  inj_countable'
    (fun n => match n with
              | Finite z => inl z
              | Infinity s => inr (Some s)
              | NaN => inr None
              end)
    (fun x => match x with
              | inl z => Finite z
              | inr (Some s) => Infinity s
              | inr None => NaN
              end)
    (fun n => match n with Finite _ | Infinity _ | NaN => eq_refl end).

(** A number as a binary64 value of the Standard Library, to compare
    [Number_add] with its addition [SFadd]. *)
Definition Number_to_binary64 (n : Number) : spec_float :=
  match n with
  | Finite z => binary_normalize 53 1024 z 0 false
  | Infinity s => S754_infinity s
  | NaN => S754_nan
  end.

(* ================================================================== *)
(** * Values that cross the interfaces *)

(** The [origin: unknown] argument of an update notification.  A local
    transaction carries no marker; [applyUpdate(update, origin)] carries the
    marker it was given. *)
Inductive Origin : Type :=
| OriginNull
| OriginString (s : string)
| OriginOther (tag : nat).

(** [origin === 'remote'] *)
Definition is_remote (origin : Origin) : bool :=
  match origin with
  | OriginString s => String.eqb s "remote"
  | _ => false
  end.

Definition remote : Origin := OriginString "remote".

(** [type: 'live' | 'queued' | 'reconnect'] *)
Inductive SyncType : Type := live | queued | reconnect.

(** [interface SyncEvent] *)
Record SyncEvent : Type := mkSyncEvent {
  from : string;
  to : string;
  bytes : nat;
  timestamp : Z;
  type : SyncType
}.

(** A [SyncEventCallback] is a JavaScript function; the engine only ever
    compares callbacks by identity and calls them. *)
Definition SyncEventCallback : Type := nat.

(** The two [UpdateCallback] closures built by the constructor of
    [SyncEngine]. *)
Inductive UpdateCallback : Type := HandleAUpdate | HandleBUpdate.

Definition ClientID : Type := positive.

(** The mutations the presentation code performs on a replica:
    [text.insert(index, s)], [text.delete(index, length)] and
    [counters.set(key, value)]. *)
Inductive Edit : Type :=
| TextInsert (index : nat) (s : string)
| TextDelete (index length : nat)
| MapSet (key : string) (value : Number).

(** [throw new Error(msg)] *)
Inductive Result (A : Type) : Type :=
| Ok (a : A)
| Throw (msg : string).
Arguments Ok {A} a.
Arguments Throw {A} msg.

(* ================================================================== *)
(** * The document engine (Yjs), as an interface

    The verbs the two classes use.  [Doc] is the replicated state of a
    [Y.Doc]; the replica's identifier is kept beside it, in [CRDTPeer].
    A transaction and an [applyUpdate] return the new state and, when the
    document changed, the payload of the ['update'] notification. *)
Class DocEngine : Type := {
  Doc : Type;
  Update : Type;
  StateVector : Type;
  (** [update.byteLength] *)
  byteLength : Update -> nat;
  (** [new Y.Doc()] *)
  Y_Doc : Doc;
  (** a local transaction by the replica [clientID] *)
  Y_transact : ClientID -> Doc -> Edit -> Doc * option Update;
  (** [Y.applyUpdate(doc, update, origin)] *)
  Y_applyUpdate : Doc -> Update -> Doc * option Update;
  (** [Y.encodeStateVector(doc)] *)
  Y_encodeStateVector : Doc -> StateVector;
  (** [Y.encodeStateAsUpdate(doc, remoteStateVector)] *)
  Y_encodeStateAsUpdate : Doc -> StateVector -> Update;
  (** [doc.getText('shared-text').toString()] *)
  Y_text : Doc -> string;
  (** the entries of [doc.getMap('counters')], as [get] reads them *)
  Y_counters : Doc -> gmap string Number;
  (** the same entries, in the order in which [forEach] visits them *)
  Y_counters_forEach : Doc -> list (string * Number)
}.

(** [Date.now()]: the n-th reading of the wall clock. *)
Class WallClock : Type := { Date_now : nat -> Z }.

(** An empty Yjs state-as-update contains only the state vector header. *)
Definition EMPTY_UPDATE_THRESHOLD : nat := 2.

(* ================================================================== *)
(** * peer.ts *)

Section Peer.
Context {engine : DocEngine}.

(** [class CRDTPeer]: its name, the document it owns, and the functions
    registered with [doc.on('update', cb)]. *)
Record CRDTPeer : Type := mkCRDTPeer {
  name : string;
  clientID : ClientID;
  doc : Doc;
  observers : list UpdateCallback
}.

Definition set_doc (d : Doc) (p : CRDTPeer) : CRDTPeer :=
  mkCRDTPeer (name p) (clientID p) d (observers p).

Definition set_observers (o : list UpdateCallback) (p : CRDTPeer) : CRDTPeer :=
  mkCRDTPeer (name p) (clientID p) (doc p) o.

(** [new CRDTPeer(name)]; the document engine draws the identifier. *)
Definition new_CRDTPeer (name : string) (id : ClientID) : CRDTPeer :=
  mkCRDTPeer name id Y_Doc [].

Definition text (p : CRDTPeer) : string := Y_text (doc p).
Definition counters (p : CRDTPeer) : gmap string Number := Y_counters (doc p).

Definition UpdateCallback_eqb (a b : UpdateCallback) : bool :=
  match a, b with
  | HandleAUpdate, HandleAUpdate | HandleBUpdate, HandleBUpdate => true
  | _, _ => false
  end.

(** [onUpdate(cb)]: [doc.on('update', cb)] adds [cb] to a set. *)
Definition onUpdate (cb : UpdateCallback) (p : CRDTPeer) : CRDTPeer :=
  if existsb (UpdateCallback_eqb cb) (observers p) then p
  else set_observers (observers p ++ [cb]) p.

(** [offUpdate(cb)]: [doc.off('update', cb)] deletes [cb] from that set. *)
Definition offUpdate (cb : UpdateCallback) (p : CRDTPeer) : CRDTPeer :=
  set_observers (List.filter (fun l => negb (UpdateCallback_eqb l cb)) (observers p)) p.

(** A mutation of the owned document: the replica after it, and the
    payload its document notifies its observers of. *)
Definition transact (e : Edit) (p : CRDTPeer) : CRDTPeer * option Update :=
  let '(d, n) := Y_transact (clientID p) (doc p) e in (set_doc d p, n).

(** [this.counters.get(this.name) ?? 0] *)
Definition current (p : CRDTPeer) : Number :=
  default (Finite 0) (counters p !! name p).

Definition incrementCounter (p : CRDTPeer) : CRDTPeer * option Update :=
  transact (MapSet (name p) (Number_add (current p) 1)) p.

Definition decrementCounter (p : CRDTPeer) : CRDTPeer * option Update :=
  transact (MapSet (name p) (Number_sub (current p) 1)) p.

(** [let total = 0; this.counters.forEach((v) => { total += v; })] over the
    values in the order [values]. *)
Definition forEach_total (values : list Number) : Number :=
  fold_left (fun total v => Number_add total v) values (Finite 0).

Definition getCounterTotal (p : CRDTPeer) : Number :=
  forEach_total (map snd (Y_counters_forEach (doc p))).

(** The sum of all values in the counters mapping, in the words of the
    specification: 0 over an empty mapping, and the value added to the sum
    of the rest otherwise. *)
Definition counterTotal_spec (m : gmap string Z) : Z :=
  map_fold (fun _ v acc => v + acc) 0 m.

(** The sum of the magnitudes of the values. *)
Definition counterMagnitude (m : gmap string Z) : Z :=
  map_fold (fun _ v acc => Z.abs v + acc) 0 m.

(** The specification's wording of the total: for every replica state, the
    sum of all values in the mapping. *)
Definition total_is_always_the_sum : Prop :=
  forall (p : CRDTPeer) (m : gmap string Z),
    counters p = Finite <$> m ->
    getCounterTotal p = Finite (counterTotal_spec m).

End Peer.

(* ================================================================== *)
(** * sync-engine.ts *)

Inductive Slot : Type := SlotA | SlotB.

(** A method of a replica, as the engine calls it. *)
Inductive PeerMethod `{DocEngine} : Type :=
| CallOnUpdate (cb : UpdateCallback)
| CallOffUpdate (cb : UpdateCallback)
| CallApplyUpdate (update : Update) (origin : Origin)
| CallGetStateVector
| CallEncodeStateAsUpdate (remoteStateVector : StateVector).

(** What leaves the engine: a method call on one of its two replicas, or
    the call of a registered observer with a sync event. *)
Inductive Effect `{DocEngine} : Type :=
| PeerCall (s : Slot) (m : PeerMethod)
| Notify (cb : SyncEventCallback) (event : SyncEvent).

Section Engine.
Context {engine : DocEngine} {clock : WallClock}.

(** [class SyncEngine], with the two replicas it refers to.  [clockReads]
    counts the readings of [Date.now()] so far, and [trace] records the
    effects in the order they happened. *)
Record SyncEngine : Type := mkSyncEngine {
  peerA : CRDTPeer;
  peerB : CRDTPeer;
  peerAOnline : bool;
  peerBOnline : bool;
  queueForB : list Update;
  queueForA : list Update;
  listeners : list SyncEventCallback;
  clockReads : nat;
  trace : list Effect
}.

Definition peer (s : Slot) (w : SyncEngine) : CRDTPeer :=
  match s with SlotA => peerA w | SlotB => peerB w end.

Definition set_peer (s : Slot) (p : CRDTPeer) (w : SyncEngine) : SyncEngine :=
  match s with
  | SlotA => mkSyncEngine p (peerB w) (peerAOnline w) (peerBOnline w)
               (queueForB w) (queueForA w) (listeners w) (clockReads w) (trace w)
  | SlotB => mkSyncEngine (peerA w) p (peerAOnline w) (peerBOnline w)
               (queueForB w) (queueForA w) (listeners w) (clockReads w) (trace w)
  end.

Definition set_peerAOnline (b : bool) (w : SyncEngine) : SyncEngine :=
  mkSyncEngine (peerA w) (peerB w) b (peerBOnline w)
    (queueForB w) (queueForA w) (listeners w) (clockReads w) (trace w).

Definition set_peerBOnline (b : bool) (w : SyncEngine) : SyncEngine :=
  mkSyncEngine (peerA w) (peerB w) (peerAOnline w) b
    (queueForB w) (queueForA w) (listeners w) (clockReads w) (trace w).

Definition set_queueForA (q : list Update) (w : SyncEngine) : SyncEngine :=
  mkSyncEngine (peerA w) (peerB w) (peerAOnline w) (peerBOnline w)
    (queueForB w) q (listeners w) (clockReads w) (trace w).

Definition set_queueForB (q : list Update) (w : SyncEngine) : SyncEngine :=
  mkSyncEngine (peerA w) (peerB w) (peerAOnline w) (peerBOnline w)
    q (queueForA w) (listeners w) (clockReads w) (trace w).

Definition set_listeners (l : list SyncEventCallback) (w : SyncEngine) : SyncEngine :=
  mkSyncEngine (peerA w) (peerB w) (peerAOnline w) (peerBOnline w)
    (queueForB w) (queueForA w) l (clockReads w) (trace w).

Definition record (e : Effect) (w : SyncEngine) : SyncEngine :=
  mkSyncEngine (peerA w) (peerB w) (peerAOnline w) (peerBOnline w)
    (queueForB w) (queueForA w) (listeners w) (clockReads w) (trace w ++ [e]).

(** One reading of [Date.now()]. *)
Definition now (w : SyncEngine) : Z * SyncEngine :=
  (Date_now (clockReads w),
   mkSyncEngine (peerA w) (peerB w) (peerAOnline w) (peerBOnline w)
     (queueForB w) (queueForA w) (listeners w) (S (clockReads w)) (trace w)).

(** [for (const cb of this.listeners) cb(event)] *)
Definition emit (event : SyncEvent) (w : SyncEngine) : SyncEngine :=
  fold_left (fun w cb => record (Notify cb event) w) (listeners w) w.

(** [const queue = to === this.peerA ? this.queueForA : this.queueForB;
     queue.push(update)] *)
Definition queue_push (to : Slot) (update : Update) (w : SyncEngine) : SyncEngine :=
  match to with
  | SlotA => set_queueForA (queueForA w ++ [update]) w
  | SlotB => set_queueForB (queueForB w ++ [update]) w
  end.

Definition queue (to : Slot) (w : SyncEngine) : list Update :=
  match to with SlotA => queueForA w | SlotB => queueForB w end.

Definition online (s : Slot) (w : SyncEngine) : bool :=
  match s with SlotA => peerAOnline w | SlotB => peerBOnline w end.

(** ** The relay path

    [relay] applies an update to a replica, whose document then notifies its
    observers, which are the engine's own handlers.  The definitions are
    first given over the reaction [dispatch] of a registered observer. *)
Section Relay.
Variable dispatch : UpdateCallback -> Update -> Origin -> SyncEngine -> SyncEngine.

(** The document of replica [s] fires ['update'] with [(update, origin)]. *)
Definition fire_update_with (s : Slot) (update : Update) (origin : Origin)
    (w : SyncEngine) : SyncEngine :=
  fold_left (fun w cb => dispatch cb update origin w) (observers (peer s w)) w.

(** [peer.applyUpdate(update, origin)] on replica [s]. *)
Definition applyUpdate_with (s : Slot) (update : Update) (origin : Origin)
    (w : SyncEngine) : SyncEngine :=
  let w := record (PeerCall s (CallApplyUpdate update origin)) w in
  let '(d, n) := Y_applyUpdate (doc (peer s w)) update in
  let w := set_peer s (set_doc d (peer s w)) w in
  match n with
  | Some u => fire_update_with s u origin w
  | None => w
  end.

(** Forward an update from one peer to another, or queue if offline. *)
Definition relay_with (update : Update) (from to : Slot) (online : bool)
    (w : SyncEngine) : SyncEngine :=
  if online then
    let w := applyUpdate_with to update remote w in
    let '(t, w) := now w in
    emit (mkSyncEvent (name (peer from w)) (name (peer to w))
            (byteLength update) t live) w
  else
    let w := queue_push to update w in
    let '(t, w) := now w in
    emit (mkSyncEvent (name (peer from w)) (name (peer to w))
            (byteLength update) t queued) w.

Definition handleAUpdate_with (update : Update) (origin : Origin)
    (w : SyncEngine) : SyncEngine :=
  if is_remote origin then w
  else relay_with update SlotA SlotB (peerAOnline w && peerBOnline w) w.

Definition handleBUpdate_with (update : Update) (origin : Origin)
    (w : SyncEngine) : SyncEngine :=
  if is_remote origin then w
  else relay_with update SlotB SlotA (peerAOnline w && peerBOnline w) w.

Definition handler_with (cb : UpdateCallback) :
    Update -> Origin -> SyncEngine -> SyncEngine :=
  match cb with
  | HandleAUpdate => handleAUpdate_with
  | HandleBUpdate => handleBUpdate_with
  end.

End Relay.

(** The handlers call [relay], which calls [applyUpdate] with the marker
    ['remote'], which calls the handlers again; on that marker they return
    at once, so the recursion is two calls deep.  [dispatch] unrolls it
    twice; [dispatch_unfold] below shows that it satisfies the recursive
    equation of the source. *)
Definition dispatch : UpdateCallback -> Update -> Origin -> SyncEngine -> SyncEngine :=
  handler_with (handler_with (fun _ _ _ w => w)).

Definition fire_update := fire_update_with dispatch.
Definition applyUpdate := applyUpdate_with dispatch.
Definition relay := relay_with dispatch.
Definition handleAUpdate := handleAUpdate_with dispatch.
Definition handleBUpdate := handleBUpdate_with dispatch.

(** The handler the constructor registers on the replica in slot [s]. *)
Definition handleUpdate (s : Slot) : Update -> Origin -> SyncEngine -> SyncEngine :=
  match s with SlotA => handleAUpdate | SlotB => handleBUpdate end.

Definition other (s : Slot) : Slot :=
  match s with SlotA => SlotB | SlotB => SlotA end.

(** ** The public methods *)

(** [new SyncEngine(peerA, peerB)] *)
Definition new_SyncEngine (a b : CRDTPeer) : SyncEngine :=
  mkSyncEngine (onUpdate HandleAUpdate a) (onUpdate HandleBUpdate b)
    true true [] [] [] 0
    [PeerCall SlotA (CallOnUpdate HandleAUpdate);
     PeerCall SlotB (CallOnUpdate HandleBUpdate)].

Definition unknown_peer (peerName : string) : string :=
  String.append "Unknown peer: " peerName.

Definition isPeerOnline (peerName : string) (w : SyncEngine) : Result bool :=
  if String.eqb peerName (name (peerA w)) then Ok (peerAOnline w)
  else if String.eqb peerName (name (peerB w)) then Ok (peerBOnline w)
  else Throw (unknown_peer peerName).

(** [peer.getStateVector()] on replica [s] *)
Definition getStateVector (s : Slot) (w : SyncEngine) : StateVector * SyncEngine :=
  (Y_encodeStateVector (doc (peer s w)), record (PeerCall s CallGetStateVector) w).

(** [peer.encodeStateAsUpdate(remoteStateVector)] on replica [s] *)
Definition encodeStateAsUpdate (s : Slot) (remoteStateVector : StateVector)
    (w : SyncEngine) : Update * SyncEngine :=
  (Y_encodeStateAsUpdate (doc (peer s w)) remoteStateVector,
   record (PeerCall s (CallEncodeStateAsUpdate remoteStateVector)) w).

(** One direction of [reconcile]: the body of
    [if (update.byteLength > EMPTY_UPDATE_THRESHOLD) { ... }]. *)
Definition reconcile_direction (from to : Slot) (update : Update)
    (w : SyncEngine) : SyncEngine :=
  if (EMPTY_UPDATE_THRESHOLD <? byteLength update)%nat then
    let w := applyUpdate to update remote w in
    let '(t, w) := now w in
    emit (mkSyncEvent (name (peer from w)) (name (peer to w))
            (byteLength update) t reconnect) w
  else w.

(** State-vector-based reconciliation. *)
Definition reconcile (w : SyncEngine) : SyncEngine :=
  let '(svA, w) := getStateVector SlotA w in
  let '(svB, w) := getStateVector SlotB w in
  let '(updateForA, w) := encodeStateAsUpdate SlotB svA w in
  let '(updateForB, w) := encodeStateAsUpdate SlotA svB w in
  let w := reconcile_direction SlotB SlotA updateForA w in
  let w := reconcile_direction SlotA SlotB updateForB w in
  set_queueForB [] (set_queueForA [] w).

(** Toggle a peer's network state. Reconnecting triggers state-vector sync. *)
Definition setOnline (peerName : string) (online : bool) (w : SyncEngine)
    : Result SyncEngine :=
  let flagged :=
    if String.eqb peerName (name (peerA w)) then Ok (set_peerAOnline online w)
    else if String.eqb peerName (name (peerB w)) then Ok (set_peerBOnline online w)
    else Throw (unknown_peer peerName) in
  match flagged with
  | Throw msg => Throw msg
  | Ok w =>
      if online && peerAOnline w && peerBOnline w then Ok (reconcile w) else Ok w
  end.

Definition onSyncEvent (cb : SyncEventCallback) (w : SyncEngine) : SyncEngine :=
  set_listeners (listeners w ++ [cb]) w.

(** [this.listeners.filter((l) => l !== cb)] *)
Definition offSyncEvent (cb : SyncEventCallback) (w : SyncEngine) : SyncEngine :=
  set_listeners (List.filter (fun l => negb (Nat.eqb l cb)) (listeners w)) w.

Definition destroy (w : SyncEngine) : SyncEngine :=
  let w := set_peer SlotA (offUpdate HandleAUpdate (peerA w))
             (record (PeerCall SlotA (CallOffUpdate HandleAUpdate)) w) in
  let w := set_peer SlotB (offUpdate HandleBUpdate (peerB w))
             (record (PeerCall SlotB (CallOffUpdate HandleBUpdate)) w) in
  set_listeners [] w.

(** ** What drives the system *)

(** A mutation made on a replica by the presentation code. *)
Inductive LocalEdit : Type :=
| Mutate (e : Edit)
| IncrementCounter
| DecrementCounter.

Definition local_edit (m : LocalEdit) (p : CRDTPeer) : CRDTPeer * option Update :=
  match m with
  | Mutate e => transact e p
  | IncrementCounter => incrementCounter p
  | DecrementCounter => decrementCounter p
  end.

(** The mutation [m] on the replica in slot [s]: the document changes and
    notifies its observers of the delta, with no origin marker. *)
Definition edit (s : Slot) (m : LocalEdit) (w : SyncEngine) : SyncEngine :=
  let '(p, n) := local_edit m (peer s w) in
  let w := set_peer s p w in
  match n with
  | Some u => fire_update s u OriginNull w
  | None => w
  end.

Inductive Action : Type :=
| Edits (s : Slot) (m : LocalEdit)
| SetOnline (peerName : string) (online : bool)
| IsPeerOnline (peerName : string)
| OnSyncEvent (cb : SyncEventCallback)
| OffSyncEvent (cb : SyncEventCallback)
| Destroy.

(** One call from outside.  A call that throws has changed nothing. *)
Definition step (w : SyncEngine) (a : Action) : SyncEngine :=
  match a with
  | Edits s m => edit s m w
  | SetOnline peerName online =>
      match setOnline peerName online w with Ok w' => w' | Throw _ => w end
  | IsPeerOnline _ => w
  | OnSyncEvent cb => onSyncEvent cb w
  | OffSyncEvent cb => offSyncEvent cb w
  | Destroy => destroy w
  end.

Definition run (acts : list Action) (w : SyncEngine) : SyncEngine :=
  fold_left step acts w.

(** The states an engine can be in: built by the constructor over two
    replicas, then driven through its public methods and by local edits. *)
Definition reachable (w : SyncEngine) : Prop :=
  exists a b acts, w = run acts (new_SyncEngine a b).

(** The effects a run adds to the trace. *)
Definition effects_since (w w' : SyncEngine) : list Effect :=
  drop (length (trace w)) (trace w').

(** ** Notions used to state the properties *)

(** A reaction that returns at once on the marker ['remote']. *)
Definition ignores_remote
    (k : UpdateCallback -> Update -> Origin -> SyncEngine -> SyncEngine) : Prop :=
  forall cb update origin w, is_remote origin = true -> k cb update origin w = w.

(** The slot a name designates, in the order [isPeerOnline] and [setOnline]
    compare it: [peerA.name] first, then [peerB.name]. *)
Definition slot_named (peerName : string) (w : SyncEngine) : option Slot :=
  if String.eqb peerName (name (peerA w)) then Some SlotA
  else if String.eqb peerName (name (peerB w)) then Some SlotB
  else None.

Definition set_online (s : Slot) (b : bool) (w : SyncEngine) : SyncEngine :=
  match s with SlotA => set_peerAOnline b w | SlotB => set_peerBOnline b w end.

(** A run of [reconcile] starts by asking replica A for its state vector,
    and nothing else asks for it. *)
Definition starts_reconcile (e : Effect) : bool :=
  match e with PeerCall SlotA CallGetStateVector => true | _ => false end.

Definition reconciliations (t : list Effect) : nat :=
  length (List.filter starts_reconcile t).

(** The calls of the observer [cb] in a trace. *)
Definition notifies (cb : SyncEventCallback) (e : Effect) : bool :=
  match e with Notify cb' _ => Nat.eqb cb' cb | _ => false end.

Definition deliveries (cb : SyncEventCallback) (t : list Effect) : list Effect :=
  List.filter (notifies cb) t.

(** The engine's handlers are the observers of its replicas' documents. *)
Definition attached (w : SyncEngine) : Prop :=
  observers (peerA w) = [HandleAUpdate] /\ observers (peerB w) = [HandleBUpdate].

(** The observers a piece of trace calls are all among [L]. *)
Definition only_notifies (L : list SyncEventCallback) (t : list Effect) : Prop :=
  forall cb event, In (Notify cb event) t -> In cb L.

(** What relaying may change: the documents, the queues while the link is
    not fully online, the clock and the trace. *)
Definition relays (w w' : SyncEngine) : Prop :=
  peerAOnline w' = peerAOnline w /\ peerBOnline w' = peerBOnline w
  /\ listeners w' = listeners w
  /\ name (peerA w') = name (peerA w) /\ name (peerB w') = name (peerB w)
  /\ observers (peerA w') = observers (peerA w)
  /\ observers (peerB w') = observers (peerB w)
  /\ (exists t, trace w' = trace w ++ t /\ only_notifies (listeners w) t)
  /\ (peerAOnline w && peerBOnline w = true ->
      queueForA w' = queueForA w /\ queueForB w' = queueForB w).

(** The link is fully online only with empty queues. *)
Definition queues_clear (w : SyncEngine) : Prop :=
  peerAOnline w && peerBOnline w = true ->
  queueForA w = [] /\ queueForB w = [].

(** The replica after a sequence of its own mutations. *)
Definition replay (edits : list LocalEdit) (p : CRDTPeer) : CRDTPeer :=
  fold_left (fun p m => (local_edit m p).1) edits p.

(** The specification's wording of when [setOnline] reconciles: on the
    transition of a slot from offline to online while the other slot is
    online, and on no other call. *)
Definition reconciles_only_on_transition : Prop :=
  forall (peerName : string) (b : bool) (w w' : SyncEngine) (s : Slot),
    slot_named peerName w = Some s ->
    setOnline peerName b w = Ok w' ->
    (online s w = false -> b = true -> online (other s) w = true ->
       reconciliations (trace w') = S (reconciliations (trace w)))
    /\ (online s w = false -> b = true -> online (other s) w = false ->
       w' = set_online s true w)
    /\ (~ (online s w = false /\ b = true) ->
       reconciliations (trace w') = reconciliations (trace w)).

(** The specification's wording of the queue invariant: a queue holds
    entries only while the peer it is addressed to is offline. *)
Definition queued_only_for_offline_destination : Prop :=
  forall w : SyncEngine, reachable w ->
  forall s : Slot, queue s w <> [] -> online s w = false.


(** The handlers are registered by the constructor and removed by
    [destroy], and never otherwise; while they are registered and the link
    is fully online, the replicas hold the same document. *)
Definition in_sync (w : SyncEngine) : Prop :=
  (observers (peerA w) = [HandleAUpdate] \/ observers (peerA w) = [])
  /\ (observers (peerB w) = [HandleBUpdate] \/ observers (peerB w) = [])
  /\ (attached w -> peerAOnline w = true -> peerBOnline w = true ->
      doc (peerA w) = doc (peerB w)).

End Engine.

(* ================================================================== *)
(** * The contract of the document engine

    What the two classes rely on from the external collaborator, beyond
    its signatures. *)

(** The map view: a fresh document has no counter, and [counters.set(k, v)]
    makes [k] hold [v] and keeps the other keys. *)
Class MapContract (engine : DocEngine) : Prop := {
  counters_fresh : Y_counters Y_Doc = ∅;
  counters_set : forall c d k v,
    Y_counters (Y_transact c d (MapSet k v)).1 = <[k := v]> (Y_counters d)
}.

(** [forEach] visits the entries [get] reads, each once. *)
Class ForEachContract (engine : DocEngine) : Prop := {
  forEach_entries : forall d,
    Y_counters_forEach d ≡ₚ map_to_list (Y_counters d)
}.

(** The replication verbs.  [join d d'] is the state that has seen all that
    [d] and [d'] have seen: merging is idempotent and commutative; the delta
    computed against a state vector brings its destination to the join; a
    delta no larger than the empty encoding carries nothing; the delta of a
    local transaction describes exactly that change. *)
Class MergeContract (engine : DocEngine) : Type := {
  join : Doc -> Doc -> Doc;
  join_comm : forall d d', join d d' = join d' d;
  join_assoc : forall d1 d2 d3, join d1 (join d2 d3) = join (join d1 d2) d3;
  join_idemp : forall d, join d d = d;
  delta_joins : forall d d',
    (Y_applyUpdate d (Y_encodeStateAsUpdate d' (Y_encodeStateVector d))).1 = join d d';
  delta_trivial : forall d d',
    (byteLength (Y_encodeStateAsUpdate d' (Y_encodeStateVector d))
       <= EMPTY_UPDATE_THRESHOLD)%nat ->
    join d d' = d;
  transact_delta : forall c d e d' u,
    Y_transact c d e = (d', Some u) -> (Y_applyUpdate d u).1 = d';
  transact_silent : forall c d e d',
    Y_transact c d e = (d', None) -> d' = d;
  transact_extends : forall c d e,
    join d (Y_transact c d e).1 = (Y_transact c d e).1
}.

(* ================================================================== *)
(** * A reference document engine

    Last-writer-wins registers: one per counter key, and one for the whole
    text.  A write is stamped with a clock and its author; the later stamp
    wins, on every replica alike. *)
Module RefEngine.

Definition Write (V : Type) : Type := nat * ClientID * V.

Section Register.
Context {V : Type} `{Countable V}.

Definition stamp (x : Write V) : nat := x.1.1.

(** Ties between writes of one clock are broken on the author and value. *)
Definition tie (x : Write V) : positive := encode (x.1.2, x.2).

(** [newer a b]: the write [b] wins over [a]. *)
Definition newer (a b : Write V) : bool :=
  (stamp a <? stamp b)%nat || ((stamp a =? stamp b)%nat && (tie a <? tie b)%positive).

Definition lww (a b : Write V) : Write V := if newer a b then b else a.

(** What a replica that has [seen] is missing of the write [x]. *)
Definition missing (seen : option (Write V)) (x : Write V) : option (Write V) :=
  match seen with
  | Some y => if newer y x then Some x else None
  | None => Some x
  end.

Definition next_stamp (x : option (Write V)) : nat :=
  match x with Some y => S (stamp y) | None => 1%nat end.

(** [lww] on registers that may not have been written yet. *)
Definition olww (x y : option (Write V)) : option (Write V) :=
  union_with (fun a b => Some (lww a b)) x y.

End Register.

(** The replicated state, also the shape of an update and of a state
    vector: the counter registers and the text register. *)
Definition State : Type := gmap string (Write Number) * option (Write string).

Definition empty : State := (∅, None).

Definition merge (d d' : State) : State :=
  (union_with (fun a b => Some (lww a b)) d.1 d'.1,
   union_with (fun a b => Some (lww a b)) d.2 d'.2).

Definition diff (d sv : State) : State :=
  (map_imap (fun k x => missing (sv.1 !! k) x) d.1, d.2 ≫= missing sv.2).

(** A two-byte header, then the entries. *)
Definition size_of (u : State) : nat :=
  (2 + 12 * size u.1
   + match u.2 with Some x => 12 + String.length x.2 | None => 0 end)%nat.

Definition apply (d u : State) : State * option State :=
  let d' := merge d u in
  (d', if decide (d' = d) then None else Some u).

Definition text_of (d : State) : string :=
  match d.2 with Some x => x.2 | None => "" end.

Definition counters_of (d : State) : gmap string Number :=
  (fun x : Write Number => x.2) <$> d.1.

(** [s] with [length] characters from [index] replaced by [ins]. *)
Definition splice (index length : nat) (s ins : string) : string :=
  String.append (substring 0 index s)
    (String.append ins
       (substring (index + length) (String.length s - (index + length)) s)).

Definition write_text (c : ClientID) (d : State) (t : string) : State * option State :=
  if String.eqb t (text_of d) then (d, None)
  else
    let x : Write string := (next_stamp d.2, c, t) in
    ((d.1, Some x), Some (∅, Some x)).

Definition transact (c : ClientID) (d : State) (e : Edit) : State * option State :=
  match e with
  | MapSet k v =>
      let x : Write Number := (next_stamp (d.1 !! k), c, v) in
      ((<[k := x]> d.1, d.2), Some ({[k := x]}, None))
  | TextInsert i s => write_text c d (splice i 0 (text_of d) s)
  | TextDelete i n => write_text c d (splice i n (text_of d) "")
  end.

Definition engine : DocEngine := {|
  Doc := State;
  Update := State;
  StateVector := State;
  byteLength := size_of;
  Y_Doc := empty;
  Y_transact := transact;
  Y_applyUpdate := apply;
  Y_encodeStateVector := fun d => d;
  Y_encodeStateAsUpdate := diff;
  Y_text := text_of;
  Y_counters := counters_of;
  Y_counters_forEach := fun d => map_to_list (counters_of d)
|}.

(** A wall clock that advances by one millisecond per reading. *)
Definition clock : WallClock := {| Date_now := fun n => 1700000000000 + Z.of_nat n |}.

End RefEngine.

(** The replicas and engines of the test-suite, over the reference
    engine. *)
Module Scenario.

#[local] Existing Instance RefEngine.engine.
#[local] Existing Instance RefEngine.clock.

Definition A : CRDTPeer := new_CRDTPeer "A" 1%positive.
Definition B : CRDTPeer := new_CRDTPeer "B" 2%positive.

(** [createSyncedPair()] *)
Definition pair : SyncEngine := new_SyncEngine A B.

(** ... with [engine.onSyncEvent((e) => events.push(e))] *)
Definition watched : SyncEngine := onSyncEvent 7%nat pair.

(** ... after [engine.setOnline('B', false)] *)
Definition B_away : SyncEngine := run [SetOnline "B" false] watched.

(** ... after [engine.setOnline('A', false)] *)
Definition A_away : SyncEngine := run [SetOnline "A" false] watched.

(** The delta of [a.text.insert(0, 'hello')] on a fresh replica. *)
Definition hello : Update :=
  default RefEngine.empty (transact (TextInsert 0 "hello") A).2.

(** A replica that was edited before the engine was built over it. *)
Definition A_edited : CRDTPeer := (transact (TextInsert 0 "early") A).1.
Definition B_edited : CRDTPeer := (transact (TextInsert 0 "early") B).1.

(** A replica whose mapping holds 2^53 under the key B, and 1 under its own
    key after a click on its plus button. *)
Definition A_large : CRDTPeer :=
  (incrementCounter (transact (MapSet "B" SAFE) A).1).1.

Definition edits : list LocalEdit :=
  [Mutate (TextInsert 0 "offline edit"); IncrementCounter; IncrementCounter;
   DecrementCounter].

End Scenario.

(* ================================================================== *)
(** * Further notions about runs *)

Section RunNotions.
Context {engine : DocEngine}.

(** The deltas the document of a replica emits over a sequence of its own
    mutations, in order. *)
Fixpoint deltas (edits : list LocalEdit) (p : CRDTPeer) : list Update :=
  match edits with
  | [] => []
  | m :: edits =>
      match (local_edit m p).2 with
      | Some u => u :: deltas edits (local_edit m p).1
      | None => deltas edits (local_edit m p).1
      end
  end.

(** What a sequence of clicks on the plus and minus buttons adds up to. *)
Definition click (m : LocalEdit) : Z :=
  match m with
  | IncrementCounter => 1
  | DecrementCounter => -1
  | Mutate _ => 0
  end.

Definition is_click (m : LocalEdit) : Prop :=
  match m with Mutate _ => False | _ => True end.

Definition net (clicks : list LocalEdit) : Z :=
  foldr (fun m acc => click m + acc) 0 clicks.

End RunNotions.

(* ================================================================== *)
(** * ui/peer-panel.ts: the text binding *)

Module PeerPanel.

Section TextBinding.
(** A JavaScript string is a sequence of UTF-16 code units. *)
Context {Char : Type} `{EqDecision Char}.

Implicit Types (oldValue newValue : list Char).

(** [while (start < oldValue.length && start < newValue.length
           && oldValue[start] === newValue[start]) start++] *)
Fixpoint scan_start (fuel : nat) oldValue newValue (start : nat) : option nat :=
  match fuel with
  | O => None
  | S fuel =>
      if (start <? length oldValue)%nat && (start <? length newValue)%nat
         && bool_decide (oldValue !! start = newValue !! start)
      then scan_start fuel oldValue newValue (S start)
      else Some start
  end.

(** [while (oldEnd > start && newEnd > start
           && oldValue[oldEnd - 1] === newValue[newEnd - 1])
      { oldEnd--; newEnd--; }] *)
Fixpoint scan_ends (fuel : nat) oldValue newValue (start oldEnd newEnd : nat)
    : option (nat * nat) :=
  match fuel with
  | O => None
  | S fuel =>
      if (start <? oldEnd)%nat && (start <? newEnd)%nat
         && bool_decide (oldValue !! (oldEnd - 1)%nat = newValue !! (newEnd - 1)%nat)
      then scan_ends fuel oldValue newValue start (oldEnd - 1) (newEnd - 1)
      else Some (oldEnd, newEnd)
  end.

(** The calls on [yText] made inside the transaction. *)
Inductive TextOp : Type :=
| OpDelete (index length : nat)
| OpInsert (index : nat) (text : list Char).

(** [value.slice(from, to)] for indices that are not negative *)
Definition slice (value : list Char) (from to : nat) : list Char :=
  take (to - from) (drop from value).

(** The handler of the textarea's ['input'] event: the operations it
    performs on the shared text, given the flag [isUpdatingTextarea], the
    text before ([yText.toString()]) and the content of the textarea. *)
Definition input_ops (isUpdatingTextarea : bool) oldValue newValue
    : option (list TextOp) :=
  if isUpdatingTextarea then Some []
  else
    match scan_start (S (length oldValue)) oldValue newValue 0 with
    | None => None
    | Some start =>
        match scan_ends (S (length oldValue)) oldValue newValue start
                (length oldValue) (length newValue) with
        | None => None
        | Some (oldEnd, newEnd) =>
            Some ((if (0 <? oldEnd - start)%nat
                   then [OpDelete start (oldEnd - start)] else [])
                  ++ (if (0 <? newEnd - start)%nat
                      then [OpInsert start (slice newValue start newEnd)]
                      else []))
        end
    end.

(** ** The shared text (Yjs), as an interface

    [Y.Text] keeps the text in items and splits an item where an operation
    starts or ends inside it.  When the last unit before such a cut is the
    first half of a surrogate pair, Yjs replaces the units on both sides of
    the cut by U+FFFD; otherwise an operation changes the text as a splice
    of the units does. *)

(** [value.charCodeAt(i)] of a unit *)
Variable charCode : Char -> N.

(** The first half of a surrogate pair: [0xD800 <= code <= 0xDBFF]. *)
Definition high_surrogate (c : Char) : bool :=
  (55296 <=? charCode c)%N && (charCode c <=? 56319)%N.

(** A cut of [value] before the index [k] has a high surrogate as the last
    unit on its left, and a unit on its right. *)
Definition cuts_pair (value : list Char) (k : nat) : bool :=
  match k with
  | O => false
  | S j =>
      match value !! j, value !! k with
      | Some c, Some _ => high_surrogate c
      | _, _ => false
      end
  end.

(** The plain change of a sequence of units. *)
Definition splice_op (op : TextOp) (value : list Char) : list Char :=
  match op with
  | OpDelete index length => take index value ++ drop (index + length) value
  | OpInsert index text => take index value ++ text ++ drop index value
  end.

(** Where an operation may cut an item. *)
Definition op_cuts (op : TextOp) : list nat :=
  match op with
  | OpDelete index length => [index; (index + length)%nat]
  | OpInsert index _ => [index]
  end.

Definition op_in_range (op : TextOp) (value : list Char) : Prop :=
  match op with
  | OpDelete index length => (index + length <= List.length value)%nat
  | OpInsert index _ => (index <= List.length value)%nat
  end.

(** No operation of [ops] cuts [value] behind a high surrogate. *)
Definition clean_cuts (value : list Char) (ops : list TextOp) : Prop :=
  forall op k, In op ops -> In k (op_cuts op) -> cuts_pair value k = false.

Class SharedText : Type := {
  YText : Type;
  (** [yText.toString()] *)
  toString : YText -> list Char;
  (** [yText.delete(index, length)] *)
  Y_delete : nat -> nat -> YText -> YText;
  (** [yText.insert(index, text)] *)
  Y_insert : nat -> list Char -> YText -> YText
}.

(** The calls of the handler, on the shared text. *)
Definition apply_op `{SharedText} (op : TextOp) (t : YText) : YText :=
  match op with
  | OpDelete index length => Y_delete index length t
  | OpInsert index text => Y_insert index text t
  end.

Definition apply_ops `{SharedText} (ops : list TextOp) (t : YText) : YText :=
  fold_left (fun t op => apply_op op t) ops t.

(** What the handler relies on from the shared text: an operation inside
    the text that cuts no surrogate pair is a splice. *)
Class SharedTextContract (T : SharedText) : Prop := {
  op_splices : forall (op : TextOp) (t : YText),
    op_in_range op (toString t) ->
    (forall k, In k (op_cuts op) -> cuts_pair (toString t) k = false) ->
    toString (apply_op op t) = splice_op op (toString t)
}.

(** An operation of [event.delta]: [retain], [insert] (a string or an
    embedded object) and [delete] are optional fields. *)
Inductive Inserted : Type :=
| InsertedString (s : list Char)
| InsertedEmbed.

Record DeltaOp : Type := mkDeltaOp {
  op_retain : option nat;
  op_insert : option Inserted;
  op_delete : option nat
}.

(** [typeof op.insert === 'string' ? op.insert.length : 1] *)
Definition inserted_length (i : Inserted) : nat :=
  match i with InsertedString s => length s | InsertedEmbed => 1%nat end.

(** The body of [for (const op of event.delta)], on [(index, cursorPos)]. *)
Definition adjust_step (st : nat * nat) (op : DeltaOp) : nat * nat :=
  let '(index, cursorPos) := st in
  match op_retain op with
  | Some r => ((index + r)%nat, cursorPos)
  | None =>
      match op_insert op with
      | Some i =>
          let len := inserted_length i in
          ((index + len)%nat,
           if (index <=? cursorPos)%nat then (cursorPos + len)%nat else cursorPos)
      | None =>
          match op_delete op with
          | Some d =>
              (index,
               if (index <? cursorPos)%nat
               then (cursorPos - Nat.min d (cursorPos - index))%nat
               else cursorPos)
          | None => (index, cursorPos)
          end
      end
  end.

(** The caret after a remote change, for a focused textarea. *)
Definition adjust_cursor (delta : list DeltaOp) (cursorPos : nat) : nat :=
  (fold_left adjust_step delta (0%nat, cursorPos)).2.

(** The length of the text a delta produces from a text of which [rest]
    units are still ahead: a retain and a delete pass units of the old text,
    an insert adds its own, and what the delta does not mention is kept. *)
Fixpoint delta_length (delta : list DeltaOp) (rest : nat) : option nat :=
  match delta with
  | [] => Some rest
  | op :: delta =>
      match op_retain op with
      | Some r =>
          if (r <=? rest)%nat
          then (fun n => (r + n)%nat) <$> delta_length delta (rest - r)
          else None
      | None =>
          match op_insert op with
          | Some i =>
              (fun n => (inserted_length i + n)%nat) <$> delta_length delta rest
          | None =>
              match op_delete op with
              | Some d =>
                  if (d <=? rest)%nat then delta_length delta (rest - d) else None
              | None => delta_length delta rest
              end
          end
      end
  end.

End TextBinding.

End PeerPanel.

(** A reference shared text: the units by their codes, all in one item, so
    that every cut inside the text splits the item. *)
Module RefText.

(** U+FFFD *)
Definition replacement : N := 65533.

(** The item split before the index [k]. *)
Definition split (value : list N) (k : nat) : list N :=
  if PeerPanel.cuts_pair id value k
  then <[k := replacement]> (<[(k - 1)%nat := replacement]> value)
  else value.

Definition delete (index length : nat) (value : list N) : list N :=
  let value := split (split value index) (index + length) in
  take index value ++ drop (index + length) value.

Definition insert (index : nat) (text : list N) (value : list N) : list N :=
  let value := split value index in
  take index value ++ text ++ drop index value.

Definition text : PeerPanel.SharedText (Char := N) := {|
  PeerPanel.YText := list N;
  PeerPanel.toString := id;
  PeerPanel.Y_delete := delete;
  PeerPanel.Y_insert := insert
|}.

End RefText.

(* ================================================================== *)
(** * ui/update-log.ts *)

Module UpdateLog.

Definition MAX_ENTRIES : nat := 80.

(** The value of [event.type], as a string. *)
Definition type_name (t : SyncType) : string :=
  match t with live => "live" | queued => "queued" | reconnect => "reconnect" end.

Definition TYPE_LABELS (t : SyncType) : string :=
  match t with live => "" | queued => "queued" | reconnect => "reconcile" end.

(** [`${n}`] for a whole number that is not negative *)
Definition String_of_nat (n : nat) : string :=
  DecimalString.NilEmpty.string_of_uint (Nat.to_uint n).

(** A [span] element: its class and its text. *)
Record Span : Type := mkSpan {
  span_className : string;
  span_textContent : string
}.

(** A [div] element of the log: [node] tells one element from another. *)
Record Entry : Type := mkEntry {
  node : nat;
  entry_className : string;
  entry_children : list Span
}.

Section Log.
(** [new Date(timestamp).toLocaleTimeString('en-US', {...})], and the
    height the browser lays the body of the log out at. *)
Variable toLocaleTimeString : Z -> string.
Variable scrollHeight : list Entry -> nat.

(** [class UpdateLog]: the children of its [.log-body] element, its
    [entries] array, and the number of entries created so far. *)
Record UpdateLog : Type := mkUpdateLog {
  logBody : list Entry;
  entries : list Entry;
  scrollTop : nat;
  created : nat
}.

Definition new_UpdateLog : UpdateLog := mkUpdateLog [] [] 0 0.

Definition span (className text : string) : Span := mkSpan className text.

(** The element [addEvent] builds for an event. *)
Definition render (id : nat) (event : SyncEvent) : Entry :=
  let time := toLocaleTimeString (timestamp event) in
  let arrow := match type event with queued => "⏸" | _ => "→" end in
  let label := TYPE_LABELS (type event) in
  mkEntry id (String.append "log-entry log-" (type_name (type event)))
    ([span "log-time" time;
      span "log-from" (from event);
      span "log-arrow" arrow;
      span "log-to" (to event);
      span "log-bytes" (String.append (String_of_nat (bytes event)) "B")]
     ++ (if String.eqb label "" then []
         else [span (String.append "log-tag log-tag-" (type_name (type event)))
                 (String.append " " label)])).

(** [element.remove()]: the element leaves the children of its parent. *)
Definition remove (e : Entry) (children : list Entry) : list Entry :=
  List.filter (fun x => negb (Nat.eqb (node x) (node e))) children.

(** [while (this.entries.length > MAX_ENTRIES) this.entries.shift()!.remove()] *)
Fixpoint trim (entries body : list Entry) : list Entry * list Entry :=
  if (MAX_ENTRIES <? length entries)%nat then
    match entries with
    | e :: rest => trim rest (remove e body)
    | [] => (entries, body)
    end
  else (entries, body).

Definition addEvent (event : SyncEvent) (log : UpdateLog) : UpdateLog :=
  let entry := render (created log) event in
  let body := logBody log ++ [entry] in
  let es := entries log ++ [entry] in
  let '(es, body) := trim es body in
  mkUpdateLog body es (scrollHeight body) (S (created log)).

(** The log after a sequence of events, from an empty one. *)
Definition logged (events : list SyncEvent) : UpdateLog :=
  fold_left (fun log event => addEvent event log) events new_UpdateLog.

(** The elements built for a sequence of events, the first with
    identity [id]. *)
Fixpoint render_from (id : nat) (events : list SyncEvent) : list Entry :=
  match events with
  | [] => []
  | event :: events => render id event :: render_from (S id) events
  end.

End Log.

End UpdateLog.

(* ================================================================== *)
(** * ui/network-controls.ts *)

Module NetworkControls.

(** The children of a toggle button: the dot and a text. *)
Inductive ButtonChild : Type := NetDot | TextNode (text : string).

Record Button : Type := mkButton {
  className : string;
  children : list ButtonChild
}.

(** [PeerPanel.setOnline(online)] of ui/peer-panel.ts: the class it gives
    the status dot of the panel. *)
Definition PeerPanel_setOnline (online : bool) : string :=
  String.append "status-dot " (if online then "online" else "offline").

Section Controls.
Context {Y : DocEngine} {clock : WallClock}.

(** [class NetworkControls], with what it reaches: the engine, the two
    buttons, the status dots of the two panels, and whether the class list
    of the connection line holds ['disconnected']. *)
Record NetworkControls : Type := mkNetworkControls {
  engine : SyncEngine;
  peerAName : string;
  peerBName : string;
  buttonA : Button;
  buttonB : Button;
  statusDotA : string;
  statusDotB : string;
  disconnected : bool
}.

Definition button (s : Slot) (ui : NetworkControls) : Button :=
  match s with SlotA => buttonA ui | SlotB => buttonB ui end.

Definition statusDot (s : Slot) (ui : NetworkControls) : string :=
  match s with SlotA => statusDotA ui | SlotB => statusDotB ui end.

(** The click handler of the button with [data-peer] A or B.  It returns
    the state it leaves and the error it throws, if any. *)
Definition toggle (btn : Slot) (ui : NetworkControls)
    : NetworkControls * option string :=
  let isA := match btn with SlotA => true | SlotB => false end in
  let peerName := if isA then peerAName ui else peerBName ui in
  match isPeerOnline peerName (engine ui) with
  | Throw msg => (ui, Some msg)
  | Ok current =>
      let newState := negb current in
      match setOnline peerName newState (engine ui) with
      | Throw msg => (ui, Some msg)
      | Ok w =>
          let b := mkButton
                     (String.append "btn btn-net "
                        (if newState then "online" else "offline"))
                     [NetDot;
                      TextNode (String.append " "
                                  (String.append peerName
                                     (String.append " — "
                                        (if newState then "Online" else "Offline"))))] in
          let dot := PeerPanel_setOnline newState in
          let ui :=
            if isA
            then mkNetworkControls w (peerAName ui) (peerBName ui) b (buttonB ui)
                   dot (statusDotB ui) (disconnected ui)
            else mkNetworkControls w (peerAName ui) (peerBName ui) (buttonA ui) b
                   (statusDotA ui) dot (disconnected ui) in
          let link (bothOnline : bool) :=
            mkNetworkControls (engine ui) (peerAName ui) (peerBName ui)
              (buttonA ui) (buttonB ui) (statusDotA ui) (statusDotB ui)
              (negb bothOnline) in
          match isPeerOnline (peerAName ui) w with
          | Throw msg => (ui, Some msg)
          | Ok a =>
              if a then
                match isPeerOnline (peerBName ui) w with
                | Throw msg => (ui, Some msg)
                | Ok b => (link b, None)
                end
              else (link false, None)
          end
      end
  end.

(** The controls name the two replicas of their engine, as main.ts wires
    them, and the two names differ. *)
Definition wired (ui : NetworkControls) : Prop :=
  peerAName ui = name (peerA (engine ui))
  /\ peerBName ui = name (peerB (engine ui))
  /\ name (peerA (engine ui)) <> name (peerB (engine ui)).

End Controls.

End NetworkControls.

(* ================================================================== *)
(** * ui/algorithm-viz.ts: the items of the shared text *)

Module AlgorithmViz.

Section Items.
Context {Char : Type}.

(** [interface YItem], without [right]: the chain from [_start] along
    [right] to [null] is a list of items. *)
Record YItem : Type := mkYItem {
  id_client : nat;
  id_clock : nat;
  content_str : option (list Char);
  item_deleted : bool
}.

(** [interface CharInfo] *)
Record CharInfo : Type := mkCharInfo {
  char : Char;
  clientId : nat;
  clock : nat;
  deleted : bool
}.

(** [for (let i = 0; i < str.length; i++) items.push({...})], from the
    index [i] on, over the units of [str] from there. *)
Fixpoint push_chars (current : YItem) (i : nat) (str : list Char) : list CharInfo :=
  match str with
  | [] => []
  | c :: str =>
      mkCharInfo c (id_client current) (id_clock current + i)%nat
        (item_deleted current)
      :: push_chars current (S i) str
  end.

(** Traverse the linked list of [Y.Text] to extract character items. *)
Fixpoint extractItems (chain : list YItem) : list CharInfo :=
  match chain with
  | [] => []
  | current :: rest =>
      match content_str current with
      | Some str => push_chars current 0 str
      | None => []
      end ++ extractItems rest
  end.

(** The units an item contributes. *)
Definition units (item : YItem) : list Char :=
  match content_str item with Some str => str | None => [] end.

End Items.

End AlgorithmViz.

(* ================================================================== *)
(** * ui/algorithm-viz.ts: when the visualization is drawn *)

Module RenderSchedule.

(** The animation frame callbacks of the browser: [requestAnimationFrame]
    appends a callback to the list and returns a fresh handle,
    [cancelAnimationFrame] removes the callback of a handle, and a frame
    runs the callbacks of the list once, in order, and empties it.  The
    only callback this class registers is the one of [scheduleRender]. *)
Record Browser : Type := mkBrowser {
  nextHandle : nat;
  frameCallbacks : list nat
}.

Definition requestAnimationFrame (b : Browser) : nat * Browser :=
  (nextHandle b, mkBrowser (S (nextHandle b)) (frameCallbacks b ++ [nextHandle b])).

Definition cancelAnimationFrame (handle : nat) (b : Browser) : Browser :=
  mkBrowser (nextHandle b)
    (List.filter (fun h => negb (Nat.eqb h handle)) (frameCallbacks b)).

(** What the schedule of [class AlgorithmViz] reads and writes: [rafId],
    whether its handlers are registered on the two documents, and how often
    [render] ran. *)
Record AlgorithmViz : Type := mkAlgorithmViz {
  rafId : option nat;
  listening : bool;
  renders : nat;
  browser : Browser
}.

(** The end of the constructor: handlers registered, one [render]. *)
Definition new_AlgorithmViz (b : Browser) : AlgorithmViz :=
  mkAlgorithmViz None true 1 b.

Definition scheduleRender (v : AlgorithmViz) : AlgorithmViz :=
  match rafId v with
  | Some _ => v
  | None =>
      let '(handle, b) := requestAnimationFrame (browser v) in
      mkAlgorithmViz (Some handle) (listening v) (renders v) b
  end.

(** The callback of [scheduleRender]. *)
Definition callback (v : AlgorithmViz) : AlgorithmViz :=
  mkAlgorithmViz None (listening v) (S (renders v)) (browser v).

(** An ['update'] of one of the documents: [updateHandlerA] or
    [updateHandlerB] runs while it is registered. *)
Definition update (v : AlgorithmViz) : AlgorithmViz :=
  if listening v then scheduleRender v else v.

(** An animation frame. *)
Definition frame (v : AlgorithmViz) : AlgorithmViz :=
  let due := frameCallbacks (browser v) in
  fold_left (fun v _ => callback v) due
    (mkAlgorithmViz (rafId v) (listening v) (renders v)
       (mkBrowser (nextHandle (browser v)) [])).

Definition destroy (v : AlgorithmViz) : AlgorithmViz :=
  mkAlgorithmViz (rafId v) false (renders v)
    match rafId v with
    | Some handle => cancelAnimationFrame handle (browser v)
    | None => browser v
    end.

Inductive Event : Type := Update | Frame | Destroy.

Definition step (e : Event) (v : AlgorithmViz) : AlgorithmViz :=
  match e with
  | Update => update v
  | Frame => frame v
  | Destroy => destroy v
  end.

Definition run (events : list Event) (v : AlgorithmViz) : AlgorithmViz :=
  fold_left (fun v e => step e v) events v.

Definition is_destroy (e : Event) : bool :=
  match e with Destroy => true | _ => false end.

(** The frames of a run that follow an update not yet drawn; [dirty]
    tells whether such an update precedes the run. *)
Fixpoint dirty_frames (dirty : bool) (events : list Event) : nat :=
  match events with
  | [] => 0
  | Update :: events => dirty_frames true events
  | Frame :: events => ((if dirty then 1 else 0) + dirty_frames false events)%nat
  | Destroy :: events => dirty_frames dirty events
  end.

(** While the handlers are registered, the browser holds the callback of
    [rafId] and no other. *)
Definition scheduled (v : AlgorithmViz) : Prop :=
  listening v = true
  /\ frameCallbacks (browser v)
     = match rafId v with Some handle => [handle] | None => [] end.

(** After [destroy], no handler is registered and no callback is left. *)
Definition stopped (v : AlgorithmViz) : Prop :=
  listening v = false /\ frameCallbacks (browser v) = [].

End RenderSchedule.

(* ================================================================== *)
(** * Facts about the relay path *)

Section RelayFacts.
Context {engine : DocEngine} {clock : WallClock}.

Implicit Types (w : SyncEngine) (s : Slot) (update : Update) (origin : Origin).

Lemma is_remote_remote : is_remote remote = true.
Proof. reflexivity. Qed.

Lemma fold_record (event : SyncEvent) (l : list SyncEventCallback) w :
  fold_left (fun w cb => record (Notify cb event) w) l w
  = mkSyncEngine (peerA w) (peerB w) (peerAOnline w) (peerBOnline w)
      (queueForB w) (queueForA w) (listeners w) (clockReads w)
      (trace w ++ map (fun cb => Notify cb event) l).
Proof.
  revert w; induction l as [|cb l IH]; intros w; simpl.
  - rewrite app_nil_r. now destruct w.
  - rewrite IH; simpl. now rewrite <- app_assoc.
Qed.

(** [emit] calls every registered observer once, in registration order,
    and touches nothing else. *)
Lemma emit_eq (event : SyncEvent) w :
  emit event w
  = mkSyncEngine (peerA w) (peerB w) (peerAOnline w) (peerBOnline w)
      (queueForB w) (queueForA w) (listeners w) (clockReads w)
      (trace w ++ map (fun cb => Notify cb event) (listeners w)).
Proof. apply fold_record. Qed.

Lemma handler_with_ignores_remote k : ignores_remote (handler_with k).
Proof.
  intros [] update origin w Hr; simpl;
    unfold handleAUpdate_with, handleBUpdate_with; now rewrite Hr.
Qed.

Lemma dispatch_ignores_remote : ignores_remote dispatch.
Proof. apply handler_with_ignores_remote. Qed.

Lemma fire_update_with_remote k s update origin w :
  ignores_remote k -> is_remote origin = true ->
  fire_update_with k s update origin w = w.
Proof.
  intros Hk Hr. unfold fire_update_with.
  generalize (observers (peer s w)) as l.
  induction l as [|cb l IH]; simpl; [reflexivity|].
  now rewrite Hk.
Qed.

(** [applyUpdate(update, 'remote')] changes the document of the replica it
    is called on, and nothing else: the echo is ignored. *)
Lemma applyUpdate_with_remote k s update w :
  ignores_remote k ->
  applyUpdate_with k s update remote w
  = set_peer s (set_doc (Y_applyUpdate (doc (peer s w)) update).1 (peer s w))
      (record (PeerCall s (CallApplyUpdate update remote)) w).
Proof.
  intros Hk. unfold applyUpdate_with.
  replace (peer s (record (PeerCall s (CallApplyUpdate update remote)) w))
    with (peer s w) by now destruct s.
  destruct (Y_applyUpdate (doc (peer s w)) update) as [d [u|]]; simpl.
  - now rewrite fire_update_with_remote.
  - reflexivity.
Qed.

Lemma applyUpdate_remote s update w :
  applyUpdate s update remote w
  = set_peer s (set_doc (Y_applyUpdate (doc (peer s w)) update).1 (peer s w))
      (record (PeerCall s (CallApplyUpdate update remote)) w).
Proof. apply applyUpdate_with_remote, dispatch_ignores_remote. Qed.

(** The two branches of [relay], in closed form. *)
Lemma relay_with_online k update (from to : Slot) w :
  ignores_remote k ->
  relay_with k update from to true w
  = let w1 := set_peer to
        (set_doc (Y_applyUpdate (doc (peer to w)) update).1 (peer to w))
        (record (PeerCall to (CallApplyUpdate update remote)) w) in
    emit (mkSyncEvent (name (peer from w)) (name (peer to w))
            (byteLength update) (Date_now (clockReads w)) live) (now w1).2.
Proof.
  intros Hk. unfold relay_with. rewrite applyUpdate_with_remote by assumption.
  destruct from, to; reflexivity.
Qed.

Lemma relay_with_offline k update (from to : Slot) w :
  relay_with k update from to false w
  = emit (mkSyncEvent (name (peer from w)) (name (peer to w))
            (byteLength update) (Date_now (clockReads w)) queued)
      (now (queue_push to update w)).2.
Proof. unfold relay_with. destruct from, to; reflexivity. Qed.

Lemma relay_with_any k k' update (from to : Slot) (b : bool) w :
  ignores_remote k -> ignores_remote k' ->
  relay_with k update from to b w = relay_with k' update from to b w.
Proof.
  intros Hk Hk'. destruct b.
  - now rewrite !relay_with_online.
  - now rewrite !relay_with_offline.
Qed.

(** [dispatch] is the reaction of the handlers of the source: it satisfies
    their recursive definition. *)
Lemma dispatch_unfold cb update origin w :
  dispatch cb update origin w = handler_with dispatch cb update origin w.
Proof.
  unfold dispatch at 1.
  destruct cb; simpl; unfold handleAUpdate_with, handleBUpdate_with;
    destruct (is_remote origin); try reflexivity;
    apply relay_with_any;
    auto using handler_with_ignores_remote, dispatch_ignores_remote.
Qed.

Lemma dispatch_handleUpdate s update origin w :
  dispatch (match s with SlotA => HandleAUpdate | SlotB => HandleBUpdate end)
    update origin w = handleUpdate s update origin w.
Proof. rewrite dispatch_unfold. now destruct s. Qed.

(** The handler of slot [s], in closed form. *)
Lemma handleUpdate_eq s update origin w :
  handleUpdate s update origin w
  = if is_remote origin then w
    else relay update s (other s) (peerAOnline w && peerBOnline w) w.
Proof. destruct s; reflexivity. Qed.

Lemma relay_online update (from to : Slot) w :
  relay update from to true w
  = let w1 := set_peer to
        (set_doc (Y_applyUpdate (doc (peer to w)) update).1 (peer to w))
        (record (PeerCall to (CallApplyUpdate update remote)) w) in
    emit (mkSyncEvent (name (peer from w)) (name (peer to w))
            (byteLength update) (Date_now (clockReads w)) live) (now w1).2.
Proof. apply relay_with_online, dispatch_ignores_remote. Qed.

Lemma relay_offline update (from to : Slot) w :
  relay update from to false w
  = emit (mkSyncEvent (name (peer from w)) (name (peer to w))
            (byteLength update) (Date_now (clockReads w)) queued)
      (now (queue_push to update w)).2.
Proof. apply relay_with_offline. Qed.

End RelayFacts.

(* ================================================================== *)
(** * The relay protocol *)

Section RelayProtocol.
Context {engine : DocEngine} {clock : WallClock}.

Implicit Types (w : SyncEngine) (s : Slot) (update : Update) (origin : Origin).

(** What the handler of slot [s] does when it is called with
    [(update, origin)], in any state: the two branches of [relay], and the
    early return on the marker ['remote']. *)
Lemma handleUpdate_protocol s update origin w :
  let w' := handleUpdate s update origin w in
  let dest := other s in
  let event kind :=
    mkSyncEvent (name (peer s w)) (name (peer dest w)) (byteLength update)
      (Date_now (clockReads w)) kind in
  (is_remote origin = false -> peerAOnline w && peerBOnline w = true ->
     trace w' = trace w ++ PeerCall dest (CallApplyUpdate update remote)
                  :: map (fun cb => Notify cb (event live)) (listeners w)
     /\ doc (peer dest w') = (Y_applyUpdate (doc (peer dest w)) update).1
     /\ peer s w' = peer s w
     /\ queueForA w' = queueForA w /\ queueForB w' = queueForB w)
  /\ (is_remote origin = false -> peerAOnline w && peerBOnline w = false ->
     trace w' = trace w ++ map (fun cb => Notify cb (event queued)) (listeners w)
     /\ queue dest w' = queue dest w ++ [update]
     /\ queue s w' = queue s w
     /\ peerA w' = peerA w /\ peerB w' = peerB w)
  /\ (is_remote origin = true -> w' = w).
Proof.
  cbv zeta. rewrite handleUpdate_eq.
  split; [|split]; [intros Hr Hon; rewrite Hr, Hon, relay_online, emit_eq
                   |intros Hr Hon; rewrite Hr, Hon, relay_offline, emit_eq
                   |intros Hr; now rewrite Hr].
  all: destruct s; simpl; rewrite <- ?app_assoc; repeat split; reflexivity.
Qed.

(** The notification reaches the handler through the document: with the
    engine attached, a document that fires ['update'] runs the handler of its
    slot, once. *)
Lemma fire_update_attached s update origin w :
  attached w ->
  fire_update s update origin w = handleUpdate s update origin w.
Proof.
  intros [HA HB]. unfold fire_update, fire_update_with.
  destruct s; cbn [peer]; [rewrite HA | rewrite HB]; cbn [fold_left].
  - exact (dispatch_handleUpdate SlotA update origin w).
  - exact (dispatch_handleUpdate SlotB update origin w).
Qed.

(* ------------------------------------------------------------------ *)
(** ** Unknown peers *)

Lemma setOnline_slot_named (peerName : string) (b : bool) w :
  setOnline peerName b w
  = match slot_named peerName w with
    | Some s =>
        let w1 := set_online s b w in
        Ok (if b && peerAOnline w1 && peerBOnline w1 then reconcile w1 else w1)
    | None => Throw (unknown_peer peerName)
    end.
Proof.
  unfold setOnline, slot_named.
  destruct (String.eqb peerName (name (peerA w)));
    [|destruct (String.eqb peerName (name (peerB w)))];
    cbv zeta; cbn [set_online]; try reflexivity;
    match goal with |- context [if ?c then _ else _] => now destruct c end.
Qed.

Lemma isPeerOnline_slot_named (peerName : string) w :
  isPeerOnline peerName w
  = match slot_named peerName w with
    | Some s => Ok (online s w)
    | None => Throw (unknown_peer peerName)
    end.
Proof.
  unfold isPeerOnline, slot_named.
  destruct (String.eqb peerName (name (peerA w)));
    [|destruct (String.eqb peerName (name (peerB w)))]; reflexivity.
Qed.

Lemma slot_named_None (peerName : string) w :
  slot_named peerName w = None
  <-> peerName <> name (peerA w) /\ peerName <> name (peerB w).
Proof.
  unfold slot_named.
  destruct (String.eqb_spec peerName (name (peerA w)));
    [|destruct (String.eqb_spec peerName (name (peerB w)))];
    split; try discriminate; try tauto.
Qed.

Lemma slot_named_Some (peerName : string) w :
  (exists s, slot_named peerName w = Some s)
  <-> peerName = name (peerA w) \/ peerName = name (peerB w).
Proof.
  unfold slot_named.
  destruct (String.eqb_spec peerName (name (peerA w)));
    [|destruct (String.eqb_spec peerName (name (peerB w)))];
    split; eauto; try tauto.
  intros [? ?]; discriminate.
Qed.

(** C6.  [setOnline] and [isPeerOnline] throw exactly when the name is
    neither [peerA.name] nor [peerB.name]; on a managed name they return. *)
Theorem unknown_peer_error (peerName : string) (b : bool) w :
  ((exists msg, setOnline peerName b w = Throw msg)
     <-> peerName <> name (peerA w) /\ peerName <> name (peerB w))
  /\ ((exists msg, isPeerOnline peerName w = Throw msg)
     <-> peerName <> name (peerA w) /\ peerName <> name (peerB w))
  /\ ((exists w', setOnline peerName b w = Ok w')
     <-> peerName = name (peerA w) \/ peerName = name (peerB w))
  /\ ((exists r, isPeerOnline peerName w = Ok r)
     <-> peerName = name (peerA w) \/ peerName = name (peerB w)).
Proof.
  rewrite setOnline_slot_named, isPeerOnline_slot_named.
  rewrite <- slot_named_None, <- slot_named_Some.
  destruct (slot_named peerName w) as [s|]; cbv zeta.
  - repeat split; try discriminate; eauto;
      intros [? ?]; discriminate.
  - repeat split; eauto; try (intros [? ?]; discriminate).
Qed.

End RelayProtocol.

(* ================================================================== *)
(** * Reconciliation *)

Section Reconciliation.
Context {engine : DocEngine} {clock : WallClock}.

Implicit Types (w : SyncEngine) (s : Slot).

Lemma reconcile_direction_eq (from to : Slot) (update : Update) w :
  reconcile_direction from to update w
  = if (EMPTY_UPDATE_THRESHOLD <? byteLength update)%nat then
      emit (mkSyncEvent (name (peer from w)) (name (peer to w))
              (byteLength update) (Date_now (clockReads w)) reconnect)
        (now (set_peer to
                (set_doc (Y_applyUpdate (doc (peer to w)) update).1 (peer to w))
                (record (PeerCall to (CallApplyUpdate update remote)) w))).2
    else w.
Proof.
  unfold reconcile_direction.
  destruct (EMPTY_UPDATE_THRESHOLD <? byteLength update)%nat; [|reflexivity].
  rewrite applyUpdate_remote. destruct from, to; reflexivity.
Qed.

(** C3.  [reconcile] asks both replicas for their state vectors and for the
    deltas against them, then treats each direction on its own: the delta
    for a replica, computed from that replica's state vector, is applied to
    it with the marker ['remote'] and reported to every observer by one
    event of type [reconnect] carrying its byte size when its byte length
    exceeds [EMPTY_UPDATE_THRESHOLD], and otherwise it is neither applied
    nor reported. *)
Theorem reconcile_directions w :
  let svA := Y_encodeStateVector (doc (peerA w)) in
  let svB := Y_encodeStateVector (doc (peerB w)) in
  let updateForA := Y_encodeStateAsUpdate (doc (peerB w)) svA in
  let updateForB := Y_encodeStateAsUpdate (doc (peerA w)) svB in
  let nontrivial u := (EMPTY_UPDATE_THRESHOLD <? byteLength u)%nat in
  let w' := reconcile w in
  exists tA tB : Z,
    trace w'
    = trace w
      ++ [PeerCall SlotA CallGetStateVector; PeerCall SlotB CallGetStateVector;
          PeerCall SlotB (CallEncodeStateAsUpdate svA);
          PeerCall SlotA (CallEncodeStateAsUpdate svB)]
      ++ (if nontrivial updateForA then
            PeerCall SlotA (CallApplyUpdate updateForA remote)
            :: map (fun cb => Notify cb
                      (mkSyncEvent (name (peerB w)) (name (peerA w))
                         (byteLength updateForA) tA reconnect)) (listeners w)
          else [])
      ++ (if nontrivial updateForB then
            PeerCall SlotB (CallApplyUpdate updateForB remote)
            :: map (fun cb => Notify cb
                      (mkSyncEvent (name (peerA w)) (name (peerB w))
                         (byteLength updateForB) tB reconnect)) (listeners w)
          else [])
    /\ doc (peerA w')
       = (if nontrivial updateForA
          then (Y_applyUpdate (doc (peerA w)) updateForA).1 else doc (peerA w))
    /\ doc (peerB w')
       = (if nontrivial updateForB
          then (Y_applyUpdate (doc (peerB w)) updateForB).1 else doc (peerB w)).
Proof.
  cbv zeta.
  exists (Date_now (clockReads w)),
    (Date_now
       (if (EMPTY_UPDATE_THRESHOLD
              <? byteLength (Y_encodeStateAsUpdate (doc (peerB w))
                               (Y_encodeStateVector (doc (peerA w)))))%nat
        then S (clockReads w) else clockReads w)).
  unfold reconcile, getStateVector, encodeStateAsUpdate.
  cbn [peer record peerA peerB doc].
  rewrite !reconcile_direction_eq.
  destruct (EMPTY_UPDATE_THRESHOLD
              <? byteLength (Y_encodeStateAsUpdate (doc (peerB w))
                               (Y_encodeStateVector (doc (peerA w)))))%nat;
  destruct (EMPTY_UPDATE_THRESHOLD
              <? byteLength (Y_encodeStateAsUpdate (doc (peerA w))
                               (Y_encodeStateVector (doc (peerB w)))))%nat;
  rewrite ?emit_eq; simpl; rewrite ?emit_eq; simpl;
  rewrite ?app_nil_r, <- ?app_assoc; simpl;
  rewrite ?app_nil_r; repeat split; reflexivity.
Qed.

End Reconciliation.

(* ================================================================== *)
(** * Going online and offline *)

Section Connectivity.
Context {engine : DocEngine} {clock : WallClock}.

Implicit Types (w : SyncEngine) (s : Slot).

Lemma reconciliations_app (t t' : list Effect) :
  reconciliations (t ++ t') = (reconciliations t + reconciliations t')%nat.
Proof. unfold reconciliations. now rewrite List.filter_app, List.length_app. Qed.

Lemma reconciliations_cons (e : Effect) (t : list Effect) :
  reconciliations (e :: t)
  = ((if starts_reconcile e then 1 else 0) + reconciliations t)%nat.
Proof. unfold reconciliations; simpl. now destruct (starts_reconcile e). Qed.

Lemma reconciliations_notify (event : SyncEvent) (l : list SyncEventCallback) :
  reconciliations (map (fun cb => Notify cb event) l) = 0%nat.
Proof. induction l; [reflexivity | assumption]. Qed.

Lemma reconciliations_direction (s : Slot) (update : Update)
    (event : SyncEvent) (l : list SyncEventCallback) (b : bool) :
  reconciliations
    (if b then PeerCall s (CallApplyUpdate update remote)
               :: map (fun cb => Notify cb event) l
     else []) = 0%nat.
Proof.
  destruct b; [|reflexivity].
  change (reconciliations ([PeerCall s (CallApplyUpdate update remote)]
                             ++ map (fun cb => Notify cb event) l) = 0%nat).
  rewrite reconciliations_app, reconciliations_notify. now destruct s.
Qed.

Lemma only_notifies_nil (L : list SyncEventCallback) : only_notifies L [].
Proof. intros cb event []. Qed.

Lemma only_notifies_app (L : list SyncEventCallback) (t t' : list Effect) :
  only_notifies L t -> only_notifies L t' -> only_notifies L (t ++ t').
Proof.
  intros H1 H2 cb event Hin. apply in_app_or in Hin as [Hin|Hin]; eauto.
Qed.

Lemma only_notifies_call (L : list SyncEventCallback) s (m : PeerMethod)
    (t : list Effect) :
  only_notifies L t -> only_notifies L (PeerCall s m :: t).
Proof. intros H cb event [Hin|Hin]; [discriminate | eauto]. Qed.

Lemma only_notifies_map (L : list SyncEventCallback) (event : SyncEvent) :
  only_notifies L (map (fun cb => Notify cb event) L).
Proof.
  intros cb ev Hin. apply in_map_iff in Hin as (cb' & Heq & Hin).
  now injection Heq as -> _.
Qed.

Lemma deliveries_app (cb : SyncEventCallback) (t t' : list Effect) :
  deliveries cb (t ++ t') = deliveries cb t ++ deliveries cb t'.
Proof. apply List.filter_app. Qed.

(** An observer that is not registered is not called. *)
Lemma deliveries_unregistered (cb : SyncEventCallback)
    (L : list SyncEventCallback) (t : list Effect) :
  only_notifies L t -> ~ In cb L -> deliveries cb t = [].
Proof.
  intros Hon Hcb. induction t as [|e t IH]; [reflexivity|].
  unfold deliveries in *; simpl.
  assert (Ht : only_notifies L t) by (intros c ev Hin; apply (Hon c ev); now right).
  destruct e as [s m|cb' event]; simpl; [now apply IH|].
  destruct (Nat.eqb_spec cb' cb) as [->|_]; [|now apply IH].
  exfalso. apply Hcb, (Hon cb event). now left.
Qed.

(** What [reconcile] keeps, what it clears, and whom it calls. *)
Lemma reconcile_frame w :
  let w' := reconcile w in
  peerAOnline w' = peerAOnline w /\ peerBOnline w' = peerBOnline w
  /\ queueForA w' = [] /\ queueForB w' = []
  /\ listeners w' = listeners w
  /\ name (peerA w') = name (peerA w) /\ name (peerB w') = name (peerB w)
  /\ clientID (peerA w') = clientID (peerA w)
  /\ clientID (peerB w') = clientID (peerB w)
  /\ observers (peerA w') = observers (peerA w)
  /\ observers (peerB w') = observers (peerB w)
  /\ exists t, trace w' = trace w ++ t /\ only_notifies (listeners w) t
               /\ reconciliations t = 1%nat.
Proof.
  cbv zeta. unfold reconcile, getStateVector, encodeStateAsUpdate.
  cbn [peer record peerA peerB doc].
  rewrite !reconcile_direction_eq.
  destruct (EMPTY_UPDATE_THRESHOLD
              <? byteLength (Y_encodeStateAsUpdate (doc (peerB w))
                               (Y_encodeStateVector (doc (peerA w)))))%nat;
  destruct (EMPTY_UPDATE_THRESHOLD
              <? byteLength (Y_encodeStateAsUpdate (doc (peerA w))
                               (Y_encodeStateVector (doc (peerB w)))))%nat;
  rewrite ?emit_eq; simpl; rewrite ?emit_eq; simpl;
  repeat (split; [reflexivity|]);
  rewrite <- ?app_assoc; simpl; eexists; (split; [reflexivity|]);
  (split;
   [ repeat first [ apply only_notifies_call | apply only_notifies_app
                  | apply only_notifies_map | apply only_notifies_nil ]
   | rewrite ?reconciliations_cons, ?reconciliations_app,
       ?reconciliations_cons, ?reconciliations_notify; reflexivity ]).
Qed.

Lemma online_set_online s (b : bool) w :
  online s (set_online s b w) = b
  /\ online (other s) (set_online s b w) = online (other s) w.
Proof. now destruct s. Qed.

Lemma both_online s w :
  peerAOnline w && peerBOnline w = online s w && online (other s) w.
Proof. destruct s; simpl; [reflexivity | apply andb_comm]. Qed.

(** C2 (as the code has it).  [setOnline] on a managed name sets the flag
    of that slot.  It runs [reconcile], once, exactly when it is called with
    [true] while the other slot is online: whether the slot was offline
    before or online already.  Called with [false], or while the other slot
    is offline, it does nothing besides setting the flag. *)
Theorem setOnline_reconciles (peerName : string) (b : bool) w s :
  slot_named peerName w = Some s ->
  exists w', setOnline peerName b w = Ok w'
    /\ online s w' = b
    /\ online (other s) w' = online (other s) w
    /\ (b = true -> online (other s) w = true ->
        w' = reconcile (set_online s true w)
        /\ reconciliations (trace w') = S (reconciliations (trace w)))
    /\ (b = false \/ online (other s) w = false ->
        w' = set_online s b w /\ trace w' = trace w).
Proof.
  intros Hs. rewrite setOnline_slot_named, Hs. cbv zeta.
  eexists; split; [reflexivity|].
  rewrite <- andb_assoc, (both_online s (set_online s b w)).
  destruct (online_set_online s b w) as [-> ->].
  pose proof (reconcile_frame (set_online s b w)) as
    (HA & HB & _ & _ & _ & _ & _ & _ & _ & _ & _ & t & Ht & _ & Hn).
  cbv zeta in *.
  assert (Hflags : online s (reconcile (set_online s b w)) = b
                   /\ online (other s) (reconcile (set_online s b w))
                      = online (other s) w).
  { destruct s; simpl in *; rewrite HA, HB; split; reflexivity. }
  pose proof (online_set_online s b w) as Hset.
  assert (Htr : trace (set_online s b w) = trace w) by now destruct s.
  destruct b, (online (other s) w) eqn:Ho; cbn [andb];
    rewrite ?Ho in *; (split; [|split; [|split]]);
    try apply Hflags; try apply Hset;
    try (intros; discriminate); try (intros [?|?]; discriminate);
    try (intros _; split; [reflexivity | assumption]).
  intros _ _. split; [reflexivity|].
  rewrite Ht, reconciliations_app, Hn, Htr. lia.
Qed.

End Connectivity.

(* ================================================================== *)
(** * Runs of the engine *)

Section Runs.
Context {engine : DocEngine} {clock : WallClock}.

Implicit Types (w : SyncEngine) (s : Slot) (a : Action).

Lemma run_snoc (acts : list Action) a w :
  run (acts ++ [a]) w = step (run acts w) a.
Proof. unfold run. now rewrite fold_left_app. Qed.


Lemma relays_refl w : relays w w.
Proof.
  unfold relays; repeat (split; [reflexivity|]).
  split; [|intros _; split; reflexivity].
  exists []. split; [now rewrite app_nil_r | apply only_notifies_nil].
Qed.

Lemma relays_trans w1 w2 w3 : relays w1 w2 -> relays w2 w3 -> relays w1 w3.
Proof.
  intros (A1 & B1 & L1 & NA1 & NB1 & OA1 & OB1 & (t1 & T1 & N1) & Q1)
         (A2 & B2 & L2 & NA2 & NB2 & OA2 & OB2 & (t2 & T2 & N2) & Q2).
  unfold relays; repeat (split; [congruence|]). split.
  - exists (t1 ++ t2). split.
    + now rewrite T2, T1, app_assoc.
    + apply only_notifies_app; [assumption | now rewrite <- L1].
  - intros Hon. destruct (Q1 Hon) as [<- <-]. apply Q2. now rewrite A1, B1.
Qed.

(** A notification relays, whatever its marker. *)
Lemma handleUpdate_relays s (update : Update) (origin : Origin) w :
  relays w (handleUpdate s update origin w).
Proof.
  rewrite handleUpdate_eq.
  destruct (is_remote origin); [apply relays_refl|].
  destruct (peerAOnline w && peerBOnline w) eqn:Hon.
  - rewrite relay_online, emit_eq.
    unfold relays; destruct s; simpl; repeat (split; [reflexivity|]);
      (split; [|intros _; split; reflexivity]);
      (eexists; split; [rewrite <- app_assoc; reflexivity|]);
      apply only_notifies_call, only_notifies_map.
  - rewrite relay_offline, emit_eq.
    unfold relays; destruct s; simpl; repeat (split; [reflexivity|]);
      (split; [|intros Hon'; congruence]);
      (eexists; split; [reflexivity|]); apply only_notifies_map.
Qed.

Lemma dispatch_relays (cb : UpdateCallback) (update : Update)
    (origin : Origin) w :
  relays w (dispatch cb update origin w).
Proof.
  destruct cb.
  - rewrite (dispatch_handleUpdate SlotA). apply handleUpdate_relays.
  - rewrite (dispatch_handleUpdate SlotB). apply handleUpdate_relays.
Qed.

Lemma fire_update_relays s (update : Update) (origin : Origin) w :
  relays w (fire_update s update origin w).
Proof.
  unfold fire_update, fire_update_with.
  generalize (observers (peer s w)) as l. intros l; revert w.
  induction l as [|cb l IH]; intros w; simpl; [apply relays_refl|].
  eapply relays_trans; [apply dispatch_relays | apply IH].
Qed.

Lemma local_edit_keeps (m : LocalEdit) (p : CRDTPeer) :
  name (local_edit m p).1 = name p
  /\ clientID (local_edit m p).1 = clientID p
  /\ observers (local_edit m p).1 = observers p.
Proof.
  destruct m; simpl; unfold incrementCounter, decrementCounter, transact;
    match goal with |- context [Y_transact ?c ?d ?e] =>
      destruct (Y_transact c d e) end; simpl; auto.
Qed.

Lemma edit_relays s (m : LocalEdit) w : relays w (edit s m w).
Proof.
  unfold edit.
  pose proof (local_edit_keeps m (peer s w)) as (Hn & _ & Ho).
  destruct (local_edit m (peer s w)) as [p n]; simpl in Hn, Ho.
  assert (Hset : relays w (set_peer s p w)).
  { unfold relays; destruct s; simpl in *; repeat (split; [congruence|]);
      (split; [|intros _; split; reflexivity]);
      exists []; (split; [now rewrite app_nil_r | apply only_notifies_nil]). }
  destruct n as [u|]; [|assumption].
  eapply relays_trans; [exact Hset | apply fire_update_relays].
Qed.

Lemma setOnline_queues_clear (peerName : string) (b : bool) w w' :
  queues_clear w -> setOnline peerName b w = Ok w' -> queues_clear w'.
Proof.
  intros Hw. rewrite setOnline_slot_named.
  destruct (slot_named peerName w) as [s|]; [|discriminate].
  cbv zeta. intros [= <-].
  destruct (b && peerAOnline (set_online s b w)
              && peerBOnline (set_online s b w)) eqn:Hc.
  - pose proof (reconcile_frame (set_online s b w)) as
      (_ & _ & QA & QB & _). intros _. now split.
  - intros Hon. destruct b.
    + simpl in Hc. congruence.
    + rewrite (both_online s) in Hon.
      destruct (online_set_online s false w) as [Hs _].
      rewrite Hs in Hon. discriminate.
Qed.

Lemma step_queues_clear a w : queues_clear w -> queues_clear (step w a).
Proof.
  intros Hw. destruct a as [s m|peerName b|peerName|cb|cb|]; simpl.
  - destruct (edit_relays s m w) as (A & B & _ & _ & _ & _ & _ & _ & Q).
    intros Hon. rewrite A, B in Hon. destruct (Q Hon) as [-> ->]. now apply Hw.
  - destruct (setOnline peerName b w) as [w'|] eqn:E; [|assumption].
    eapply setOnline_queues_clear; eassumption.
  - assumption.
  - exact Hw.
  - exact Hw.
  - exact Hw.
Qed.

Lemma reachable_queues_clear w : reachable w -> queues_clear w.
Proof.
  intros (a & b & acts & ->).
  induction acts as [|x acts IH] using rev_ind.
  - intros _. now split.
  - rewrite run_snoc. now apply step_queues_clear.
Qed.

Lemma setOnline_queue (peerName : string) (b : bool) w w' s :
  setOnline peerName b w = Ok w' -> queue s w' = [] \/ queue s w' = queue s w.
Proof.
  rewrite setOnline_slot_named.
  destruct (slot_named peerName w) as [s0|]; [|discriminate].
  cbv zeta. intros [= <-].
  destruct (b && peerAOnline (set_online s0 b w)
              && peerBOnline (set_online s0 b w)).
  - pose proof (reconcile_frame (set_online s0 b w)) as
      (_ & _ & QA & QB & _). left. now destruct s.
  - right. now destruct s, s0.
Qed.

(** C4 (as the code has it).  In every reachable state a queue is non-empty
    only if at least one of the two slots is offline: with both slots online
    both queues are empty, and a step appends to a queue only while the link
    is not fully online. *)
Theorem queues_only_while_link_down :
  (forall w, reachable w -> peerAOnline w = true -> peerBOnline w = true ->
     queueForA w = [] /\ queueForB w = [])
  /\ (forall w s, reachable w -> queue s w <> [] ->
     peerAOnline w = false \/ peerBOnline w = false)
  /\ (forall w a s,
     (length (queue s w) < length (queue s (step w a)))%nat ->
     peerAOnline w = false \/ peerBOnline w = false).
Proof.
  split; [|split].
  - intros w Hw HA HB. apply (reachable_queues_clear w Hw). now rewrite HA, HB.
  - intros w s Hw Hq.
    destruct (peerAOnline w) eqn:HA; [|now left].
    destruct (peerBOnline w) eqn:HB; [|now right].
    exfalso. apply Hq.
    destruct (reachable_queues_clear w Hw) as [QA QB]; [now rewrite HA, HB|].
    now destruct s.
  - intros w a s Hlen.
    destruct (peerAOnline w) eqn:HA; [|now left].
    destruct (peerBOnline w) eqn:HB; [|now right].
    exfalso. destruct a as [s0 m|peerName b|peerName|cb|cb|]; simpl in Hlen.
    + destruct (edit_relays s0 m w) as (_ & _ & _ & _ & _ & _ & _ & _ & Q).
      destruct Q as [QA QB]; [now rewrite HA, HB|].
      destruct s; simpl in Hlen; rewrite ?QA, ?QB in Hlen; lia.
    + destruct (setOnline peerName b w) as [w'|] eqn:E; [|lia].
      destruct (setOnline_queue _ _ _ _ s E) as [Q|Q];
        rewrite Q in Hlen; simpl in Hlen; lia.
    + lia.
    + destruct s; simpl in Hlen; lia.
    + destruct s; simpl in Hlen; lia.
    + destruct s; simpl in Hlen; lia.
Qed.

(* ------------------------------------------------------------------ *)
(** ** Observers that are not registered *)

Lemma step_unregistered (cb : SyncEventCallback) a w :
  ~ In cb (listeners w) -> a <> OnSyncEvent cb ->
  ~ In cb (listeners (step w a))
  /\ deliveries cb (trace (step w a)) = deliveries cb (trace w).
Proof.
  intros Hcb Ha. destruct a as [s m|peerName b|peerName|cb'|cb'|]; simpl.
  - destruct (edit_relays s m w) as (_ & _ & L & _ & _ & _ & _ & (t & T & N) & _).
    rewrite L, T, deliveries_app, (deliveries_unregistered cb _ t N Hcb).
    now rewrite app_nil_r.
  - rewrite setOnline_slot_named.
    destruct (slot_named peerName w) as [s|]; [|now split].
    cbv zeta.
    assert (HL : listeners (set_online s b w) = listeners w) by now destruct s.
    assert (HT : trace (set_online s b w) = trace w) by now destruct s.
    destruct (b && peerAOnline (set_online s b w)
                && peerBOnline (set_online s b w)).
    + pose proof (reconcile_frame (set_online s b w)) as
        (_ & _ & _ & _ & L & _ & _ & _ & _ & _ & _ & t & T & N & _).
      cbv zeta in *. rewrite L, T, HL, HT, deliveries_app.
      rewrite HL in N. rewrite (deliveries_unregistered cb _ t N Hcb).
      now rewrite app_nil_r.
    + now rewrite HL, HT.
  - now split.
  - split; [|reflexivity]. intros Hin. apply in_app_or in Hin as [Hin|[<-|[]]].
    + now apply Hcb.
    + now apply Ha.
  - split; [|reflexivity]. intros Hin. apply List.filter_In in Hin as [Hin _].
    now apply Hcb.
  - split; [intros []|]. unfold destroy; simpl.
    now rewrite <- app_assoc, deliveries_app, app_nil_r.
Qed.

Lemma run_unregistered (cb : SyncEventCallback) (acts : list Action) w :
  ~ In cb (listeners w) -> ~ In (OnSyncEvent cb) acts ->
  ~ In cb (listeners (run acts w))
  /\ deliveries cb (trace (run acts w)) = deliveries cb (trace w).
Proof.
  revert w. induction acts as [|a acts IH]; intros w Hcb Hacts; [now split|].
  change (run (a :: acts) w) with (run acts (step w a)).
  destruct (step_unregistered cb a w Hcb) as [Hcb' Hd].
  { intros ->. apply Hacts. now left. }
  destruct (IH (step w a) Hcb') as [Hl Ht].
  { intros Hin. apply Hacts. now right. }
  split; [assumption | congruence].
Qed.

Lemma emit_unregistered (cb : SyncEventCallback) (event : SyncEvent) w :
  ~ In cb (listeners w) ->
  deliveries cb (trace (emit event w)) = deliveries cb (trace w).
Proof.
  intros Hcb. rewrite emit_eq; simpl. rewrite deliveries_app.
  rewrite (deliveries_unregistered cb (listeners w) (map _ _)
             (only_notifies_map _ _) Hcb).
  now rewrite app_nil_r.
Qed.

Lemma filter_all (l : list SyncEventCallback) (cb : SyncEventCallback) :
  ~ In cb l -> List.filter (fun l => negb (Nat.eqb l cb)) l = l.
Proof.
  induction l as [|x l IH]; intros Hcb; [reflexivity|]. simpl.
  destruct (Nat.eqb_spec x cb) as [->|_]; simpl.
  - exfalso. apply Hcb. now left.
  - rewrite IH; [reflexivity|]. intros Hin. apply Hcb. now right.
Qed.

Lemma count_occ_filter (l : list SyncEventCallback) (cb cb' : SyncEventCallback) :
  cb' <> cb ->
  count_occ Nat.eq_dec (List.filter (fun l => negb (Nat.eqb l cb)) l) cb'
  = count_occ Nat.eq_dec l cb'.
Proof.
  intros Hne. induction l as [|x l IH]; [reflexivity|]. simpl.
  destruct (Nat.eqb_spec x cb) as [->|Hx]; simpl.
  - destruct (Nat.eq_dec cb cb'); [congruence | assumption].
  - destruct (Nat.eq_dec x cb'); now rewrite IH.
Qed.

(** C10.  [offSyncEvent(cb)] removes every registration of [cb] and keeps
    the registrations of the other callbacks: however many times [cb] was
    registered, it is registered zero times afterwards, and no later [emit]
    calls it, nor any later step, until it is registered again.  When [cb]
    was never registered the call changes nothing. *)
Theorem offSyncEvent_removes_every_registration (cb : SyncEventCallback) w :
  let w' := offSyncEvent cb w in
  ~ In cb (listeners w')
  /\ count_occ Nat.eq_dec (listeners w') cb = 0%nat
  /\ (forall cb', cb' <> cb ->
      count_occ Nat.eq_dec (listeners w') cb'
      = count_occ Nat.eq_dec (listeners w) cb')
  /\ (forall event,
      deliveries cb (trace (emit event w')) = deliveries cb (trace w))
  /\ (forall acts, ~ In (OnSyncEvent cb) acts ->
      deliveries cb (trace (run acts w')) = deliveries cb (trace w))
  /\ (~ In cb (listeners w) -> w' = w).
Proof.
  cbv zeta.
  assert (Hcb : ~ In cb (listeners (offSyncEvent cb w))).
  { unfold offSyncEvent; simpl. intros Hin.
    apply List.filter_In in Hin as [_ Hne].
    now rewrite Nat.eqb_refl in Hne. }
  assert (Ht : trace (offSyncEvent cb w) = trace w) by reflexivity.
  split; [assumption|]. split; [now apply count_occ_not_In|].
  split; [intros cb' Hne; now apply count_occ_filter|].
  split; [intros event; now rewrite emit_unregistered|].
  split.
  - intros acts Hacts.
    destruct (run_unregistered cb acts _ Hcb Hacts) as [_ ->]. now rewrite Ht.
  - intros Hnot. unfold offSyncEvent. rewrite filter_all by assumption.
    now destruct w.
Qed.

(* ------------------------------------------------------------------ *)
(** ** Teardown *)

Lemma step_observers a w (h : UpdateCallback) :
  (In h (observers (peerA (step w a))) -> In h (observers (peerA w)))
  /\ (In h (observers (peerB (step w a))) -> In h (observers (peerB w))).
Proof.
  destruct a as [s m|peerName b|peerName|cb|cb|]; simpl; try tauto.
  - destruct (edit_relays s m w) as (_ & _ & _ & _ & _ & -> & -> & _). tauto.
  - rewrite setOnline_slot_named.
    destruct (slot_named peerName w) as [s|]; [|tauto]. cbv zeta.
    destruct (b && peerAOnline (set_online s b w)
                && peerBOnline (set_online s b w)).
    + pose proof (reconcile_frame (set_online s b w)) as
        (_ & _ & _ & _ & _ & _ & _ & _ & _ & OA & OB & _).
      cbv zeta in *. rewrite OA, OB. destruct s; simpl; tauto.
    + destruct s; simpl; tauto.
  - split; intros Hin; apply List.filter_In in Hin; tauto.
Qed.

Lemma run_observers (acts : list Action) w (h : UpdateCallback) :
  (In h (observers (peerA (run acts w))) -> In h (observers (peerA w)))
  /\ (In h (observers (peerB (run acts w))) -> In h (observers (peerB w))).
Proof.
  revert w. induction acts as [|a acts IH]; intros w; [tauto|].
  change (run (a :: acts) w) with (run acts (step w a)).
  destruct (IH (step w a)), (step_observers a w h). tauto.
Qed.

Lemma destroy_eq w :
  destroy w
  = mkSyncEngine (offUpdate HandleAUpdate (peerA w))
      (offUpdate HandleBUpdate (peerB w)) (peerAOnline w) (peerBOnline w)
      (queueForB w) (queueForA w) [] (clockReads w)
      (trace w ++ [PeerCall SlotA (CallOffUpdate HandleAUpdate);
                   PeerCall SlotB (CallOffUpdate HandleBUpdate)]).
Proof. unfold destroy; simpl. now rewrite <- app_assoc. Qed.

(** [offUpdate] of a function that is not registered changes nothing. *)
Lemma offUpdate_absent (h : UpdateCallback) (p : CRDTPeer) :
  ~ In h (observers p) -> offUpdate h p = p.
Proof.
  intros Hn. unfold offUpdate.
  replace (List.filter (fun l => negb (UpdateCallback_eqb l h)) (observers p))
    with (observers p); [now destruct p|].
  induction (observers p) as [|x l IH]; [reflexivity|]. simpl.
  destruct (UpdateCallback_eqb x h) eqn:E; simpl.
  - exfalso. apply Hn. left. now destruct x, h.
  - rewrite <- IH; [reflexivity|]. intros Hin. apply Hn. now right.
Qed.

(** C7.  [destroy] is idempotent: a second call leaves the replicas and
    the engine as the first one left them (it only repeats the two
    [offUpdate] calls, which find nothing to remove).  After the first
    call no observer is registered, and no later step calls an observer
    that is not registered anew; the handlers are no longer among the
    observers of the replicas' documents, and stay so. *)
Theorem destroy_idempotent w :
  let w1 := destroy w in
  let w2 := destroy w1 in
  (peerA w2 = peerA w1 /\ peerB w2 = peerB w1
   /\ peerAOnline w2 = peerAOnline w1 /\ peerBOnline w2 = peerBOnline w1
   /\ queueForA w2 = queueForA w1 /\ queueForB w2 = queueForB w1
   /\ listeners w2 = listeners w1 /\ clockReads w2 = clockReads w1
   /\ trace w2 = trace w1 ++ [PeerCall SlotA (CallOffUpdate HandleAUpdate);
                              PeerCall SlotB (CallOffUpdate HandleBUpdate)])
  /\ listeners w1 = []
  /\ (forall cb acts, ~ In (OnSyncEvent cb) acts ->
      deliveries cb (trace (run acts w1)) = deliveries cb (trace w))
  /\ (forall acts,
      ~ In HandleAUpdate (observers (peerA (run acts w1)))
      /\ ~ In HandleBUpdate (observers (peerB (run acts w1)))).
Proof.
  cbv zeta.
  assert (HA : ~ In HandleAUpdate (observers (peerA (destroy w)))).
  { unfold destroy; simpl. intros Hin.
    apply List.filter_In in Hin as [_ Hne]. discriminate. }
  assert (HB : ~ In HandleBUpdate (observers (peerB (destroy w)))).
  { unfold destroy; simpl. intros Hin.
    apply List.filter_In in Hin as [_ Hne]. discriminate. }
  split; [|split; [reflexivity|split]].
  - rewrite (destroy_eq (destroy w)).
    cbn [peerA peerB peerAOnline peerBOnline queueForA queueForB listeners
         clockReads trace].
    rewrite (offUpdate_absent _ _ HA), (offUpdate_absent _ _ HB).
    repeat split; reflexivity.
  - intros cb acts Hacts.
    destruct (run_unregistered cb acts (destroy w)) as [_ ->];
      [intros [] | assumption |].
    rewrite destroy_eq; simpl. rewrite deliveries_app.
    now rewrite app_nil_r.
  - intros acts.
    destruct (run_observers acts (destroy w) HandleAUpdate) as [PA _].
    destruct (run_observers acts (destroy w) HandleBUpdate) as [_ PB].
    tauto.
Qed.

(* ------------------------------------------------------------------ *)
(** ** The relay protocol, from the replicas *)

(** The constructor registers the two handlers. *)
Lemma new_SyncEngine_attached (a b : CRDTPeer) :
  observers a = [] -> observers b = [] -> attached (new_SyncEngine a b).
Proof.
  intros Ha Hb. unfold attached, new_SyncEngine, onUpdate; cbn [peerA peerB].
  rewrite Ha, Hb. split; reflexivity.
Qed.

(** Until [destroy], they stay registered. *)
Lemma step_attached a w : attached w -> a <> Destroy -> attached (step w a).
Proof.
  intros [HA HB] Hd. unfold attached.
  destruct a as [s m|peerName b|peerName|cb|cb|]; cbn [step];
    [| | split; assumption | split; assumption | split; assumption
     | now destruct Hd].
  - destruct (edit_relays s m w) as (_ & _ & _ & _ & _ & -> & -> & _).
    split; assumption.
  - rewrite setOnline_slot_named.
    destruct (slot_named peerName w) as [s|]; [|split; assumption]. cbv zeta.
    destruct (b && peerAOnline (set_online s b w)
                && peerBOnline (set_online s b w)).
    + pose proof (reconcile_frame (set_online s b w)) as
        (_ & _ & _ & _ & _ & _ & _ & _ & _ & OA & OB & _).
      cbv zeta in *. rewrite OA, OB. destruct s; split; assumption.
    + destruct s; split; assumption.
Qed.

Lemma run_attached (acts : list Action) w :
  attached w -> ~ In Destroy acts -> attached (run acts w).
Proof.
  revert w. induction acts as [|a acts IH]; intros w Hw Hd; [exact Hw|].
  change (run (a :: acts) w) with (run acts (step w a)).
  apply IH.
  - apply step_attached; [assumption|]. intros ->. apply Hd. now left.
  - intros Hin. apply Hd. now right.
Qed.

(** C1.  An engine built over two replicas, until it is destroyed, in any
    state its public methods and the local edits have brought it to: when
    the document of the replica in slot [s] has changed and notifies its
    observers of [(update, origin)] and the marker is not ['remote'], then,
    with both slots online, the engine calls [applyUpdate(update, 'remote')]
    on the other replica and calls every observer once with one event of
    type [live]; otherwise it appends the update to the queue addressed to
    the other replica, calls every observer once with one event of type
    [queued], and leaves both replicas as they are.  A notification marked
    ['remote'] changes nothing: no call, no queueing, no event.  A local
    edit that changes the document is such a notification, of its delta and
    without a marker. *)
Theorem relay_protocol (a b : CRDTPeer) (acts : list Action) s (d : Doc)
    (update : Update) (origin : Origin) :
  observers a = [] -> observers b = [] -> ~ In Destroy acts ->
  let built := run acts (new_SyncEngine a b) in
  let w := set_peer s (set_doc d (peer s built)) built in
  let w' := fire_update s update origin w in
  let dest := other s in
  let event kind :=
    mkSyncEvent (name (peer s w)) (name (peer dest w)) (byteLength update)
      (Date_now (clockReads w)) kind in
  (is_remote origin = false -> peerAOnline w && peerBOnline w = true ->
     trace w' = trace w ++ PeerCall dest (CallApplyUpdate update remote)
                  :: map (fun cb => Notify cb (event live)) (listeners w)
     /\ doc (peer dest w') = (Y_applyUpdate (doc (peer dest w)) update).1
     /\ peer s w' = peer s w
     /\ queueForA w' = queueForA w /\ queueForB w' = queueForB w)
  /\ (is_remote origin = false -> peerAOnline w && peerBOnline w = false ->
     trace w' = trace w ++ map (fun cb => Notify cb (event queued)) (listeners w)
     /\ queue dest w' = queue dest w ++ [update]
     /\ queue s w' = queue s w
     /\ peerA w' = peerA w /\ peerB w' = peerB w)
  /\ (is_remote origin = true -> w' = w)
  /\ (forall m : LocalEdit,
       local_edit m (peer s built) = (set_doc d (peer s built), Some update) ->
       edit s m built = fire_update s update OriginNull w).
Proof.
  intros Ha Hb Hd built w.
  assert (Hbuilt : attached built)
    by (apply run_attached; [now apply new_SyncEngine_attached | assumption]).
  assert (Hw : attached w)
    by (destruct Hbuilt as [HA HB]; subst w; destruct s; split; assumption).
  cbv zeta. rewrite (fire_update_attached s update origin w Hw).
  destruct (handleUpdate_protocol s update origin w) as (H1 & H2 & H3).
  split; [exact H1|]. split; [exact H2|]. split; [exact H3|].
  intros m Hm. unfold edit. now rewrite Hm.
Qed.

End Runs.

(* ================================================================== *)
(** * The counters of a replica *)

Section Counters.
Context {engine : DocEngine}.

Implicit Types (p : CRDTPeer) (m : gmap string Z).

Local Abbreviation sum := (foldr Z.add 0).
Local Abbreviation magnitude := (foldr (fun v acc => Z.abs v + acc) 0).

(** ** Sums of whole numbers *)

Lemma SAFE_le_MAX_VALUE : SAFE <= MAX_VALUE.
Proof. apply Z.leb_le. reflexivity. Qed.

(** Up to [SAFE], the whole numbers are numbers: rounding keeps them. *)
Lemma round_to_nearest_even_safe (z : Z) :
  Z.abs z <= SAFE -> round_to_nearest_even z = z.
Proof.
  unfold SAFE. change (2 ^ 53) with 9007199254740992. intros Hz.
  destruct (Z.eq_dec (Z.abs z) 9007199254740992) as [E|E].
  - assert (Hc : z = 9007199254740992 \/ z = -9007199254740992) by lia.
    destruct Hc as [-> | ->]; reflexivity.
  - unfold round_to_nearest_even. cbv zeta.
    assert (He : Z.log2 (Z.abs z) + 1 - 53 <= 0).
    { destruct (Z.eq_dec (Z.abs z) 0) as [E0|E0]; [now rewrite E0|].
      assert (Z.log2 (Z.abs z) < 53); [|lia].
      apply Z.log2_lt_pow2; [lia|].
      change (2 ^ 53) with 9007199254740992. lia. }
    destruct (Z.leb_spec (Z.log2 (Z.abs z) + 1 - 53) 0); [reflexivity | lia].
Qed.

Lemma Number_of_exact_safe (z : Z) :
  Z.abs z <= SAFE -> Number_of_exact z = Finite z.
Proof.
  intros Hz. unfold Number_of_exact. cbv zeta.
  rewrite round_to_nearest_even_safe by assumption.
  pose proof SAFE_le_MAX_VALUE.
  destruct (Z.leb_spec (Z.abs z) MAX_VALUE); [reflexivity | lia].
Qed.

(** A sum of whole numbers that stays within [SAFE] is exact. *)
Lemma Number_add_safe (a b : Z) :
  Z.abs (a + b) <= SAFE -> Number_add a b = Finite (a + b).
Proof. intros H. cbn [Number_add]. now apply Number_of_exact_safe. Qed.

Lemma Number_sub_safe (a b : Z) :
  Z.abs (a - b) <= SAFE -> Number_sub a b = Finite (a - b).
Proof.
  intros H. unfold Number_sub. cbn [Number_opp Number_add].
  replace (a + - b) with (a - b) by lia. now apply Number_of_exact_safe.
Qed.

Lemma magnitude_nonneg (values : list Z) : 0 <= magnitude values.
Proof. induction values as [|v values IH]; simpl; lia. Qed.

Lemma sum_perm (values values' : list Z) :
  Permutation values values' -> sum values = sum values'.
Proof. intros HP. induction HP; simpl; lia. Qed.

Lemma magnitude_perm (values values' : list Z) :
  Permutation values values' -> magnitude values = magnitude values'.
Proof. intros HP. induction HP; simpl; lia. Qed.

Lemma fold_total_safe (values : list Z) (total : Z) :
  Z.abs total + magnitude values <= SAFE ->
  fold_left (fun t v => Number_add t v) (map Finite values) (Finite total)
  = Finite (total + sum values).
Proof.
  revert total.
  induction values as [|v values IH]; intros total Hb; cbn [map fold_left foldr].
  - f_equal. lia.
  - cbn [foldr] in Hb. pose proof (magnitude_nonneg values).
    rewrite Number_add_safe by lia. rewrite IH by lia. f_equal. lia.
Qed.

(** While the magnitudes add up to at most [SAFE], the total is the sum,
    whatever the order of the values. *)
Lemma forEach_total_safe (values : list Z) :
  magnitude values <= SAFE ->
  forEach_total (map Finite values) = Finite (sum values).
Proof.
  intros Hb. unfold forEach_total.
  rewrite (fold_total_safe values 0) by (simpl; lia). reflexivity.
Qed.

Lemma counterTotal_spec_sum m :
  counterTotal_spec m = sum (map snd (map_to_list m)).
Proof.
  unfold counterTotal_spec. rewrite map_fold_foldr.
  induction (map_to_list m) as [|[k v] l IH]; simpl; [reflexivity|].
  now rewrite IH.
Qed.

Lemma counterMagnitude_magnitude m :
  counterMagnitude m = magnitude (map snd (map_to_list m)).
Proof.
  unfold counterMagnitude. rewrite map_fold_foldr.
  induction (map_to_list m) as [|[k v] l IH]; simpl; [reflexivity|].
  now rewrite IH.
Qed.

Lemma counterTotal_spec_empty : counterTotal_spec ∅ = 0.
Proof. apply map_fold_empty. Qed.

Lemma counterTotal_spec_insert m (k : string) (v : Z) :
  m !! k = None -> counterTotal_spec (<[k := v]> m) = v + counterTotal_spec m.
Proof.
  intros Hk. unfold counterTotal_spec.
  rewrite map_fold_insert_L; [reflexivity | intros; lia | assumption].
Qed.

Lemma counterMagnitude_insert m (k : string) (v : Z) :
  m !! k = None ->
  counterMagnitude (<[k := v]> m) = Z.abs v + counterMagnitude m.
Proof.
  intros Hk. unfold counterMagnitude.
  rewrite map_fold_insert_L; [reflexivity | intros; lia | assumption].
Qed.

(** The values of a mapping of whole numbers, in any order of traversal. *)
Lemma whole_values m (values : list Number) :
  values ≡ₚ map snd (map_to_list (Finite <$> m)) ->
  exists zs, values = map Finite zs /\ zs ≡ₚ map snd (map_to_list m).
Proof.
  intros HP.
  assert (HP' : values ≡ₚ map Finite (map snd (map_to_list m))).
  { rewrite HP, map_to_list_fmap, !map_map.
    erewrite map_ext; [reflexivity|]. now intros [k v]. }
  destruct (Permutation_map_inv _ _ HP') as (zs & -> & Hzs).
  exists zs. split; [reflexivity | now symmetry].
Qed.

Lemma total_of_whole_values m (values : list Number) :
  values ≡ₚ map snd (map_to_list (Finite <$> m)) ->
  counterMagnitude m <= SAFE ->
  forEach_total values = Finite (counterTotal_spec m).
Proof.
  intros HP Hb. destruct (whole_values m values HP) as (zs & -> & Hzs).
  rewrite forEach_total_safe.
  - now rewrite counterTotal_spec_sum, (sum_perm _ _ Hzs).
  - now rewrite (magnitude_perm _ _ Hzs), <- counterMagnitude_magnitude.
Qed.

Section ForEach.
Context {forEach : ForEachContract engine}.

Lemma forEach_values p :
  map snd (Y_counters_forEach (doc p)) ≡ₚ map snd (map_to_list (counters p)).
Proof. unfold counters. now rewrite forEach_entries. Qed.

(** C8.  [getCounterTotal] returns 0 when the mapping is empty.  When the
    values are whole numbers whose magnitudes add up to at most 2^53, it
    returns their sum, and so does the loop in any other order of
    traversal. *)
Theorem getCounterTotal_is_sum p :
  (counters p = ∅ -> getCounterTotal p = 0)
  /\ (forall m : gmap string Z,
        counters p = Finite <$> m -> counterMagnitude m <= SAFE ->
        getCounterTotal p = counterTotal_spec m
        /\ (forall values,
              values ≡ₚ map snd (map_to_list (counters p)) ->
              forEach_total values = counterTotal_spec m)).
Proof.
  pose proof (forEach_values p) as HP. split.
  - intros E. unfold getCounterTotal. rewrite E, map_to_list_empty in HP.
    apply Permutation_nil_r in HP. now rewrite HP.
  - intros m Hm Hb. rewrite Hm in HP. split.
    + now apply total_of_whole_values.
    + intros values Hv. rewrite Hm in Hv. now apply total_of_whole_values.
Qed.

End ForEach.

Lemma transact_doc (e : Edit) p :
  doc (transact e p).1 = (Y_transact (clientID p) (doc p) e).1
  /\ (transact e p).2 = (Y_transact (clientID p) (doc p) e).2.
Proof.
  unfold transact. now destruct (Y_transact (clientID p) (doc p) e).
Qed.

(** C9.  A counter key that was never set reads as 0; no read fails.  So
    on a replica whose own key was never set, and in particular on a fresh
    replica, [incrementCounter] stores 1 and [decrementCounter] stores -1. *)
Theorem unset_counter_reads_zero {contract : MapContract engine} :
  (forall p, counters p !! name p = None ->
     current p = 0
     /\ incrementCounter p = transact (MapSet (name p) 1) p
     /\ decrementCounter p = transact (MapSet (name p) (-1)) p
     /\ counters (incrementCounter p).1 !! name p = Some (Finite 1)
     /\ counters (decrementCounter p).1 !! name p = Some (Finite (-1)))
  /\ (forall (n : string) (id : ClientID),
     let p := new_CRDTPeer n id in
     current p = 0
     /\ counters (incrementCounter p).1 !! n = Some (Finite 1)
     /\ counters (decrementCounter p).1 !! n = Some (Finite (-1))).
Proof.
  assert (Hset : forall p v,
             counters (transact (MapSet (name p) v) p).1 !! name p = Some v).
  { intros p v. unfold counters at 1.
    rewrite (proj1 (transact_doc _ p)), counters_set.
    apply lookup_insert_eq. }
  assert (Hunset : forall p, counters p !! name p = None -> current p = 0).
  { intros p Hp. unfold current. now rewrite Hp. }
  split.
  - intros p Hp. pose proof (Hunset p Hp) as Hc.
    unfold incrementCounter, decrementCounter. rewrite Hc.
    repeat split; try reflexivity; apply Hset.
  - intros n id p.
    assert (Hp : counters p !! name p = None).
    { unfold counters, p; simpl. rewrite counters_fresh. apply lookup_empty. }
    pose proof (Hunset p Hp) as Hc.
    unfold incrementCounter, decrementCounter. rewrite Hc.
    repeat split; try reflexivity; apply (Hset p).
Qed.

End Counters.

(* ================================================================== *)
(** * Queueing, then reconciling *)

Section Convergence.
Context {engine : DocEngine} {clock : WallClock}.

Implicit Types (w : SyncEngine) (s : Slot) (m : LocalEdit) (p : CRDTPeer).

(** With the engine attached, a local mutation is relayed once. *)
Lemma edit_attached_eq s m w :
  attached w ->
  edit s m w
  = match (local_edit m (peer s w)).2 with
    | Some u => relay u s (other s) (peerAOnline w && peerBOnline w)
                  (set_peer s (local_edit m (peer s w)).1 w)
    | None => set_peer s (local_edit m (peer s w)).1 w
    end.
Proof.
  intros Hatt. unfold edit.
  pose proof (local_edit_keeps m (peer s w)) as (_ & _ & Ho).
  destruct (local_edit m (peer s w)) as [p [u|]]; simpl in *; [|reflexivity].
  rewrite fire_update_attached.
  - rewrite handleUpdate_eq; simpl. now destruct s.
  - destruct Hatt as [HA HB]. unfold attached.
    destruct s; simpl in *; split; congruence.
Qed.

Lemma edit_keeps_attached s m w : attached w -> attached (edit s m w).
Proof.
  intros [HA HB].
  destruct (edit_relays s m w) as (_ & _ & _ & _ & _ & OA & OB & _).
  split; congruence.
Qed.

(** The replica that makes the mutation is changed by it alone. *)
Lemma edit_source s m w :
  attached w -> peer s (edit s m w) = (local_edit m (peer s w)).1.
Proof.
  intros Hatt. rewrite edit_attached_eq by assumption.
  destruct (local_edit m (peer s w)) as [p [u|]]; simpl.
  - destruct (peerAOnline w && peerBOnline w).
    + rewrite relay_online, emit_eq. now destruct s.
    + rewrite relay_offline, emit_eq. now destruct s.
  - now destruct s.
Qed.

(** Offline isolation: while the link is down the other replica is not
    touched. *)
Lemma edit_dest_offline s m w :
  attached w -> peerAOnline w && peerBOnline w = false ->
  peer (other s) (edit s m w) = peer (other s) w.
Proof.
  intros Hatt Hoff. rewrite edit_attached_eq, Hoff by assumption.
  destruct (local_edit m (peer s w)) as [p [u|]]; cbn [fst snd].
  - rewrite relay_offline, emit_eq. now destruct s.
  - now destruct s.
Qed.

Lemma edit_dest_online s m w :
  attached w -> peerAOnline w && peerBOnline w = true ->
  doc (peer (other s) (edit s m w))
  = match (local_edit m (peer s w)).2 with
    | Some u => (Y_applyUpdate (doc (peer (other s) w)) u).1
    | None => doc (peer (other s) w)
    end.
Proof.
  intros Hatt Hon. rewrite edit_attached_eq, Hon by assumption.
  destruct (local_edit m (peer s w)) as [p [u|]]; cbn [fst snd].
  - rewrite relay_online, emit_eq. now destruct s.
  - now destruct s.
Qed.

Lemma local_edit_transact m p : exists e, local_edit m p = transact e p.
Proof. destruct m; simpl; eexists; reflexivity. Qed.




Section Contract.
Context {contract : MergeContract engine}.

Lemma local_edit_delta m p :
  match (local_edit m p).2 with
  | Some u => (Y_applyUpdate (doc p) u).1
  | None => doc p
  end = doc (local_edit m p).1.
Proof.
  destruct (local_edit_transact m p) as [e ->].
  destruct (transact_doc e p) as [-> ->].
  destruct (Y_transact (clientID p) (doc p) e) as [d [u|]] eqn:E; simpl.
  - eapply transact_delta, E.
  - symmetry. eapply transact_silent, E.
Qed.




(** After [reconcile] both replicas hold the join of what they held. *)
Lemma reconcile_docs w :
  doc (peerA (reconcile w)) = join (doc (peerA w)) (doc (peerB w))
  /\ doc (peerB (reconcile w)) = join (doc (peerA w)) (doc (peerB w)).
Proof.
  unfold reconcile, getStateVector, encodeStateAsUpdate.
  cbn [peer record peerA peerB doc].
  rewrite !reconcile_direction_eq.
  pose proof (delta_joins (doc (peerA w)) (doc (peerB w))) as JA.
  pose proof (delta_joins (doc (peerB w)) (doc (peerA w))) as JB.
  pose proof (delta_trivial (doc (peerA w)) (doc (peerB w))) as TA.
  pose proof (delta_trivial (doc (peerB w)) (doc (peerA w))) as TB.
  rewrite (join_comm (doc (peerB w))) in JB, TB.
  destruct (Nat.ltb_spec EMPTY_UPDATE_THRESHOLD
              (byteLength (Y_encodeStateAsUpdate (doc (peerB w))
                             (Y_encodeStateVector (doc (peerA w))))));
  destruct (Nat.ltb_spec EMPTY_UPDATE_THRESHOLD
              (byteLength (Y_encodeStateAsUpdate (doc (peerA w))
                             (Y_encodeStateVector (doc (peerB w))))));
  rewrite ?emit_eq; simpl; rewrite ?emit_eq; simpl; split;
    first [ exact JA | exact JB | symmetry; now apply TA
          | symmetry; now apply TB ].
Qed.


(** Convergence: an engine built over two replicas that hold the same
    document, as two fresh ones do, keeps them equal whenever it is attached
    and the link is fully online.  So the premises of C5 hold in every such
    state. *)
Lemma step_in_sync (a : Action) w : in_sync w -> in_sync (step w a).
Proof.
  intros (OA & OB & Hdoc).
  destruct a as [s m|peerName b|peerName|cb|cb|]; simpl.
  - destruct (edit_relays s m w) as (A & B & _ & _ & _ & OA' & OB' & _).
    split; [now rewrite OA'|]. split; [now rewrite OB'|].
    intros [HA HB] HAon HBon.
    assert (Hatt : attached w) by (split; congruence).
    rewrite A in HAon. rewrite B in HBon.
    specialize (Hdoc Hatt HAon HBon).
    assert (Hup : peerAOnline w && peerBOnline w = true) by now rewrite HAon, HBon.
    pose proof (edit_source s m w Hatt) as Hsrc.
    pose proof (edit_dest_online s m w Hatt Hup) as Hdst.
    pose proof (local_edit_delta m (peer s w)) as Hdelta.
    destruct s; cbn [peer other] in *.
    + rewrite Hdst, Hsrc, <- Hdoc. symmetry. exact Hdelta.
    + rewrite Hdst, Hsrc, Hdoc. exact Hdelta.
  - rewrite setOnline_slot_named.
    destruct (slot_named peerName w) as [s|]; [|now repeat split].
    cbv zeta.
    assert (HOA : observers (peerA (set_online s b w)) = observers (peerA w))
      by now destruct s.
    assert (HOB : observers (peerB (set_online s b w)) = observers (peerB w))
      by now destruct s.
    destruct (b && peerAOnline (set_online s b w)
                && peerBOnline (set_online s b w)) eqn:Hc.
    + pose proof (reconcile_frame (set_online s b w)) as
        (_ & _ & _ & _ & _ & _ & _ & _ & _ & OA' & OB' & _).
      cbv zeta in *.
      split; [now rewrite OA', HOA|]. split; [now rewrite OB', HOB|].
      intros _ _ _. destruct (reconcile_docs (set_online s b w)) as [-> ->].
      reflexivity.
    + split; [now rewrite HOA|]. split; [now rewrite HOB|].
      intros _ HAon HBon. rewrite HAon, HBon, !andb_true_r in Hc. subst b.
      destruct s; simpl in *; congruence.
  - now repeat split.
  - now repeat split.
  - now repeat split.
  - rewrite destroy_eq. unfold in_sync, attached; simpl.
    assert (EA : List.filter (fun l => negb (UpdateCallback_eqb l HandleAUpdate))
                   (observers (peerA w)) = [])
      by (destruct OA as [-> | ->]; reflexivity).
    assert (EB : List.filter (fun l => negb (UpdateCallback_eqb l HandleBUpdate))
                   (observers (peerB w)) = [])
      by (destruct OB as [-> | ->]; reflexivity).
    rewrite EA, EB. split; [now right|]. split; [now right|].
    intros [? _]. discriminate.
Qed.

(** X5.  Convergence.  An engine built over two replicas that hold the
    same document keeps them equal: in every state it reaches in which it is
    still attached and both slots are online, the two documents are the
    same. *)
Lemma online_replicas_agree (a b : CRDTPeer) (acts : list Action) :
  observers a = [] -> observers b = [] -> doc a = doc b ->
  let w := run acts (new_SyncEngine a b) in
  attached w -> peerAOnline w = true -> peerBOnline w = true ->
  doc (peerA w) = doc (peerB w).
Proof.
  intros Ha Hb Hdoc. cbv zeta.
  assert (H : in_sync (run acts (new_SyncEngine a b))).
  { induction acts as [|x acts IH] using rev_ind.
    - unfold in_sync, new_SyncEngine, onUpdate; simpl. rewrite Ha, Hb; simpl.
      repeat split; auto.
    - rewrite run_snoc. now apply step_in_sync. }
  apply H.
Qed.

End Contract.
End Convergence.

(* ================================================================== *)
(** * The reference engine meets the contract *)

Module RefEngineLaws.
Import RefEngine.

Section Register.
Context {V : Type} `{Countable V}.

Implicit Types (a b c : Write V) (x y z : option (Write V)).

Lemma newer_spec a b :
  newer a b = true
  <-> (stamp a < stamp b)%nat
      \/ (stamp a = stamp b /\ (tie a < tie b)%positive).
Proof.
  unfold newer.
  rewrite orb_true_iff, andb_true_iff, Nat.ltb_lt, Nat.eqb_eq, Pos.ltb_lt.
  reflexivity.
Qed.

Lemma newer_false a b :
  newer a b = false
  <-> (stamp b < stamp a)%nat
      \/ (stamp a = stamp b /\ (tie b <= tie a)%positive).
Proof.
  rewrite <- not_true_iff_false, newer_spec. lia.
Qed.

(** Two writes with the same stamp and tie-break are the same write. *)
Lemma write_eq a b : stamp a = stamp b -> tie a = tie b -> a = b.
Proof.
  destruct a as [[n1 c1] v1], b as [[n2 c2] v2]. unfold stamp, tie; simpl.
  intros -> Ht. apply (inj encode) in Ht. now injection Ht as -> ->.
Qed.

Ltac order :=
  repeat match goal with
  | E : newer _ _ = true |- _ => apply newer_spec in E
  | E : newer _ _ = false |- _ => apply newer_false in E
  end;
  first [ reflexivity | exfalso; lia | apply write_eq; lia ].

Lemma lww_comm a b : lww a b = lww b a.
Proof.
  unfold lww. destruct (newer a b) eqn:E1, (newer b a) eqn:E2; order.
Qed.

Lemma lww_idemp a : lww a a = a.
Proof. unfold lww. now destruct (newer a a). Qed.

Lemma lww_assoc a b c : lww a (lww b c) = lww (lww a b) c.
Proof.
  unfold lww.
  destruct (newer b c) eqn:E1, (newer a b) eqn:E2;
    try rewrite E1; try rewrite E2;
    destruct (newer a c) eqn:E3; try rewrite E1; try rewrite E2; order.
Qed.

Lemma olww_comm x y : olww x y = olww y x.
Proof.
  destruct x as [a|], y as [b|]; unfold olww; simpl; try reflexivity.
  now rewrite lww_comm.
Qed.

Lemma olww_idemp x : olww x x = x.
Proof.
  destruct x as [a|]; unfold olww; simpl; try reflexivity.
  now rewrite lww_idemp.
Qed.

Lemma olww_assoc x y z : olww x (olww y z) = olww (olww x y) z.
Proof.
  destruct x as [a|], y as [b|], z as [c|]; unfold olww; simpl;
    try reflexivity.
  now rewrite lww_assoc.
Qed.

Lemma olww_None_r x : olww x None = x.
Proof. now destruct x. Qed.

(** Sending what is missing is as good as sending everything. *)
Lemma olww_missing x y : olww x (y ≫= missing x) = olww x y.
Proof.
  destruct y as [b|]; [|reflexivity]. destruct x as [a|]; [|reflexivity].
  unfold olww, missing, lww; simpl.
  destruct (newer a b) eqn:E; simpl; rewrite ?E; reflexivity.
Qed.

(** A fresh write wins over the register it overwrites. *)
Lemma olww_next x (c : ClientID) (v : V) :
  olww x (Some (next_stamp x, c, v)) = Some (next_stamp x, c, v).
Proof.
  destruct x as [a|]; [|reflexivity]. unfold olww, lww; simpl.
  assert (E : newer a (S (stamp a), c, v) = true).
  { apply newer_spec. left. unfold stamp at 2; simpl. lia. }
  now rewrite E.
Qed.

End Register.

Implicit Types (d u : State).

Lemma merge_lookup d d' (k : string) :
  (merge d d').1 !! k = olww (d.1 !! k) (d'.1 !! k).
Proof. unfold merge; simpl. apply lookup_union_with. Qed.

Lemma state_eq d d' :
  (forall k, d.1 !! k = d'.1 !! k) -> d.2 = d'.2 -> d = d'.
Proof.
  destruct d as [m t], d' as [m' t']; simpl. intros Hm ->.
  f_equal. now apply map_eq.
Qed.

Lemma merge_comm d d' : merge d d' = merge d' d.
Proof.
  apply state_eq.
  - intros k. rewrite !merge_lookup. apply olww_comm.
  - apply (olww_comm (V := string)).
Qed.

Lemma merge_assoc d1 d2 d3 : merge d1 (merge d2 d3) = merge (merge d1 d2) d3.
Proof.
  apply state_eq.
  - intros k. rewrite !merge_lookup. apply olww_assoc.
  - apply (olww_assoc (V := string)).
Qed.

Lemma merge_idemp d : merge d d = d.
Proof.
  apply state_eq.
  - intros k. rewrite !merge_lookup. apply olww_idemp.
  - apply (olww_idemp (V := string)).
Qed.

Lemma merge_empty d : merge d empty = d.
Proof.
  apply state_eq.
  - intros k. rewrite merge_lookup. simpl. rewrite lookup_empty. apply olww_None_r.
  - apply (olww_None_r (V := string)).
Qed.

Lemma merge_diff d d' : merge d (diff d' d) = merge d d'.
Proof.
  apply state_eq.
  - intros k. rewrite !merge_lookup. unfold diff; simpl.
    rewrite map_lookup_imap. apply olww_missing.
  - apply (olww_missing (V := string)).
Qed.

Lemma size_of_trivial u :
  (size_of u <= EMPTY_UPDATE_THRESHOLD)%nat -> u = empty.
Proof.
  unfold size_of, EMPTY_UPDATE_THRESHOLD. destruct u as [m [x|]]; simpl.
  - lia.
  - intros Hs. assert (size m = 0%nat) as Hm by lia.
    apply map_size_empty_inv in Hm. now subst.
Qed.

Lemma write_text_merge (c : ClientID) d (t : string) :
  merge d (write_text c d t).1 = (write_text c d t).1
  /\ match (write_text c d t).2 with
     | Some u => merge d u = (write_text c d t).1
     | None => (write_text c d t).1 = d
     end.
Proof.
  unfold write_text. destruct (String.eqb t (text_of d)); simpl.
  - split; [apply merge_idemp | reflexivity].
  - split; apply state_eq; simpl; intros;
      rewrite ?lookup_union_with, ?lookup_empty;
      first [ apply olww_idemp | apply olww_None_r
            | apply (olww_next (V := string)) ].
Qed.

Lemma transact_merge (c : ClientID) d (e : Edit) :
  merge d (transact c d e).1 = (transact c d e).1
  /\ match (transact c d e).2 with
     | Some u => merge d u = (transact c d e).1
     | None => (transact c d e).1 = d
     end.
Proof.
  destruct e as [i s|i n|k v]; simpl; try apply write_text_merge.
  split; apply state_eq; simpl; intros;
    rewrite ?lookup_union_with;
    try apply (olww_idemp (V := string)); try apply (olww_None_r (V := string)).
  - destruct (decide (k0 = k)) as [->|Hne].
    + rewrite lookup_insert_eq. apply olww_next.
    + rewrite lookup_insert_ne by congruence. apply olww_idemp.
  - destruct (decide (k0 = k)) as [->|Hne].
    + rewrite lookup_insert_eq, lookup_singleton_eq. apply olww_next.
    + rewrite lookup_insert_ne, lookup_singleton_ne by congruence.
      apply olww_None_r.
Qed.

Lemma map_contract : MapContract engine.
Proof.
  split; simpl.
  - unfold counters_of, empty; simpl. apply fmap_empty.
  - intros c d k v. unfold counters_of; simpl. apply fmap_insert.
Qed.

Lemma forEach_contract : ForEachContract engine.
Proof. split. reflexivity. Qed.

Definition merge_contract : MergeContract engine.
Proof.
  apply (Build_MergeContract engine merge); simpl.
  - apply merge_comm.
  - apply merge_assoc.
  - apply merge_idemp.
  - intros d d'. apply merge_diff.
  - intros d d' Hs. apply size_of_trivial in Hs.
    rewrite <- merge_diff, Hs. apply merge_empty.
  - intros c d e d' u E. pose proof (transact_merge c d e) as [_ Hm].
    rewrite E in Hm. exact Hm.
  - intros c d e d' E. pose proof (transact_merge c d e) as [_ Hm].
    rewrite E in Hm. exact Hm.
  - intros c d e. apply transact_merge.
Defined.

End RefEngineLaws.

(* ================================================================== *)
(** * More about the engine and the replicas *)

Section EngineMore.
Context {engine : DocEngine} {clock : WallClock}.

Implicit Types (w : SyncEngine) (s : Slot) (m : LocalEdit) (p : CRDTPeer).

Lemma slot_named_same_names (n : string) w w' :
  name (peerA w') = name (peerA w) -> name (peerB w') = name (peerB w) ->
  slot_named n w' = slot_named n w.
Proof. intros HA HB. unfold slot_named. now rewrite HA, HB. Qed.

Lemma slot_named_inj (n n' : string) w s :
  slot_named n w = Some s -> slot_named n' w = Some s -> n = n'.
Proof.
  unfold slot_named.
  destruct (String.eqb_spec n (name (peerA w)));
    destruct (String.eqb_spec n' (name (peerA w)));
    destruct (String.eqb_spec n (name (peerB w)));
    destruct (String.eqb_spec n' (name (peerB w)));
    intros; simplify_eq; congruence.
Qed.

(** What a successful [setOnline] leaves behind. *)
Lemma setOnline_Ok (peerName : string) (b : bool) w w' s :
  slot_named peerName w = Some s -> setOnline peerName b w = Ok w' ->
  name (peerA w') = name (peerA w) /\ name (peerB w') = name (peerB w)
  /\ online s w' = b /\ online (other s) w' = online (other s) w
  /\ (w' = reconcile (set_online s b w) \/ w' = set_online s b w).
Proof.
  intros Hs. rewrite setOnline_slot_named, Hs. cbv zeta. intros [= <-].
  destruct (online_set_online s b w) as [Hb Ho].
  assert (Hn : name (peerA (set_online s b w)) = name (peerA w)
               /\ name (peerB (set_online s b w)) = name (peerB w))
    by now destruct s.
  destruct Hn as [HnA HnB].
  destruct (b && peerAOnline (set_online s b w)
              && peerBOnline (set_online s b w)).
  - pose proof (reconcile_frame (set_online s b w)) as
      (FA & FB & _ & _ & _ & NA & NB & _). cbv zeta in *.
    repeat split; try congruence; try (now left);
      destruct s; simpl in *; congruence.
  - repeat split; try assumption. now right.
Qed.

(** X1.  [isPeerOnline] reads back what [setOnline] wrote: after a
    successful [setOnline(name, b)], [isPeerOnline(name)] returns [b], and
    its answer for every other name is what it was. *)
Theorem setOnline_isPeerOnline (peerName : string) (b : bool) w w' :
  setOnline peerName b w = Ok w' ->
  isPeerOnline peerName w' = Ok b
  /\ (forall n, n <> peerName -> isPeerOnline n w' = isPeerOnline n w).
Proof.
  intros E.
  destruct (slot_named peerName w) as [s|] eqn:Hs.
  2:{ rewrite setOnline_slot_named, Hs in E. discriminate. }
  destruct (setOnline_Ok _ _ _ _ _ Hs E) as (NA & NB & Hb & Ho & _).
  rewrite !isPeerOnline_slot_named.
  split.
  - now rewrite (slot_named_same_names _ _ _ NA NB), Hs, Hb.
  - intros n Hn. rewrite !isPeerOnline_slot_named.
    rewrite (slot_named_same_names _ _ _ NA NB).
    destruct (slot_named n w) as [s'|] eqn:Hs'; [|reflexivity].
    assert (s' = other s) as ->.
    { destruct s, s'; try reflexivity;
        exfalso; apply Hn; eapply slot_named_inj; eassumption. }
    now rewrite Ho.
Qed.

(** X2.  When the two replicas carry the same name, the name always
    designates slot A: no call of [setOnline] changes the flag of slot B,
    and [isPeerOnline] only ever reports the flag of slot A. *)
Theorem shared_name_hides_slot_B w :
  name (peerA w) = name (peerB w) ->
  (forall (n : string) (b : bool) w',
     setOnline n b w = Ok w' ->
     peerBOnline w' = peerBOnline w /\ name (peerA w') = name (peerB w'))
  /\ (forall (n : string) (r : bool),
     isPeerOnline n w = Ok r -> r = peerAOnline w).
Proof.
  intros Hsame.
  assert (HA : forall n s, slot_named n w = Some s -> s = SlotA).
  { intros n s. unfold slot_named. rewrite <- Hsame.
    destruct (String.eqb n (name (peerA w))); congruence. }
  split.
  - intros n b w' E.
    destruct (slot_named n w) as [s|] eqn:Hs.
    2:{ rewrite setOnline_slot_named, Hs in E. discriminate. }
    pose proof (HA _ _ Hs) as ->.
    destruct (setOnline_Ok _ _ _ _ _ Hs E) as (NA & NB & _ & Ho & _).
    split; [exact Ho | congruence].
  - intros n r. rewrite isPeerOnline_slot_named.
    destruct (slot_named n w) as [s|] eqn:Hs; [|discriminate].
    pose proof (HA _ _ Hs) as ->. now intros [= <-].
Qed.

Lemma deliveries_map_notify (cb : SyncEventCallback) (event : SyncEvent)
    (l : list SyncEventCallback) :
  deliveries cb (map (fun c => Notify c event) l)
  = repeat (Notify cb event) (count_occ Nat.eq_dec l cb).
Proof.
  induction l as [|x l IH]; [reflexivity|].
  unfold deliveries in *; simpl.
  destruct (Nat.eq_dec x cb) as [Heq|Hne].
  - rewrite (proj2 (Nat.eqb_eq x cb) Heq), Heq. simpl. now rewrite IH.
  - rewrite (proj2 (Nat.eqb_neq x cb) Hne). exact IH.
Qed.

(** X3.  Observers are a list, not a set: [onSyncEvent] adds one
    registration each time it is called, and [emit] calls the observers in
    registration order, a callback as many times as it is registered. *)
Theorem emit_once_per_registration (cb : SyncEventCallback)
    (event : SyncEvent) w :
  trace (emit event w)
  = trace w ++ map (fun c => Notify c event) (listeners w)
  /\ deliveries cb (trace (emit event w))
     = deliveries cb (trace w)
       ++ repeat (Notify cb event) (count_occ Nat.eq_dec (listeners w) cb)
  /\ count_occ Nat.eq_dec (listeners (onSyncEvent cb w)) cb
     = S (count_occ Nat.eq_dec (listeners w) cb)
  /\ listeners (onSyncEvent cb w) = listeners w ++ [cb].
Proof.
  rewrite emit_eq; cbn [trace]. split; [reflexivity|]. split.
  - now rewrite deliveries_app, deliveries_map_notify.
  - split; [|reflexivity]. unfold onSyncEvent; cbn [listeners set_listeners].
    rewrite count_occ_app.
    match goal with |- (_ + ?x)%nat = _ =>
      assert (x = 1%nat) as ->
        by (simpl; destruct (Nat.eq_dec cb cb); congruence)
    end.
    apply Nat.add_1_r.
Qed.

(** X6.  [reconcile] never looks into the queues: whatever they hold, it
    does the same and leaves them empty.  The queued updates are dropped,
    not replayed. *)
Theorem reconcile_discards_queues (qA qB : list Update) w :
  reconcile (set_queueForA qA (set_queueForB qB w)) = reconcile w.
Proof.
  unfold reconcile, getStateVector, encodeStateAsUpdate.
  cbn [peer record peerA peerB doc set_queueForA set_queueForB].
  rewrite !reconcile_direction_eq.
  cbn [peer record peerA peerB doc set_queueForA set_queueForB clockReads].
  destruct (EMPTY_UPDATE_THRESHOLD
              <? byteLength (Y_encodeStateAsUpdate (doc (peerB w))
                               (Y_encodeStateVector (doc (peerA w)))))%nat;
  destruct (EMPTY_UPDATE_THRESHOLD
              <? byteLength (Y_encodeStateAsUpdate (doc (peerA w))
                               (Y_encodeStateVector (doc (peerB w)))))%nat;
  rewrite ?emit_eq; simpl; rewrite ?emit_eq; reflexivity.
Qed.

Lemma observers_only (h : UpdateCallback) (l : list UpdateCallback) :
  (forall x, In x l -> x = h) ->
  List.filter (fun x => negb (UpdateCallback_eqb x h)) l = [].
Proof.
  intros Hl. induction l as [|x l IH]; [reflexivity|]. simpl.
  rewrite (Hl x) by now left.
  replace (UpdateCallback_eqb h h) with true by now destruct h.
  simpl. apply IH. intros y Hy. apply Hl. now right.
Qed.

Lemma no_observers (l : list UpdateCallback) : (forall x, ~ In x l) -> l = [].
Proof. destruct l as [|x l]; [reflexivity|]. intros H. destruct (H x). now left. Qed.

(** X7.  Once [destroy] has been called on an engine built over two
    replicas, a local mutation changes the replica it is made on and nothing
    else: it is neither relayed nor queued nor reported, then or later. *)
Theorem destroyed_engine_relays_nothing (a b : CRDTPeer)
    (acts acts' : list Action) :
  observers a = [] -> observers b = [] ->
  let w := run acts' (destroy (run acts (new_SyncEngine a b))) in
  forall s m, edit s m w = set_peer s (local_edit m (peer s w)).1 w.
Proof.
  intros Ha Hb. cbv zeta.
  set (w0 := run acts (new_SyncEngine a b)).
  assert (H0A : forall x, In x (observers (peerA w0)) -> x = HandleAUpdate).
  { intros x Hx. apply (run_observers acts) in Hx.
    unfold new_SyncEngine, onUpdate in Hx; simpl in Hx.
    rewrite Ha in Hx; simpl in Hx. destruct Hx as [<-|[]]. reflexivity. }
  assert (H0B : forall x, In x (observers (peerB w0)) -> x = HandleBUpdate).
  { intros x Hx. apply (run_observers acts) in Hx.
    unfold new_SyncEngine, onUpdate in Hx; simpl in Hx.
    rewrite Hb in Hx; simpl in Hx. destruct Hx as [<-|[]]. reflexivity. }
  assert (H1 : observers (peerA (destroy w0)) = []
               /\ observers (peerB (destroy w0)) = []).
  { rewrite destroy_eq; simpl. split; now apply observers_only. }
  destruct H1 as [H1A H1B].
  set (w := run acts' (destroy w0)).
  assert (HA : observers (peerA w) = []).
  { apply no_observers. intros x Hx. apply (run_observers acts') in Hx.
    now rewrite H1A in Hx. }
  assert (HB : observers (peerB w) = []).
  { apply no_observers. intros x Hx. apply (run_observers acts') in Hx.
    now rewrite H1B in Hx. }
  intros s m. unfold edit.
  pose proof (local_edit_keeps m (peer s w)) as (_ & _ & Ho).
  destruct (local_edit m (peer s w)) as [p [u|]]; cbn [fst snd] in *;
    [|reflexivity].
  unfold fire_update, fire_update_with.
  replace (observers (peer s (set_peer s p w))) with (@nil UpdateCallback);
    [reflexivity|].
  destruct s; cbn [peer set_peer peerA peerB] in *; congruence.
Qed.

Lemma replay_cons (edits : list LocalEdit) m p :
  replay (m :: edits) p = replay edits (local_edit m p).1.
Proof. reflexivity. Qed.

(** X8.  While the link is down, the engine attached: a sequence of
    mutations on one replica appends the deltas of exactly these mutations,
    in order, to the queue addressed to the other replica, and touches
    neither the other replica nor the other queue. *)
Theorem offline_edits_are_queued (edits : list LocalEdit) s w :
  attached w -> peerAOnline w && peerBOnline w = false ->
  let w' := run (map (Edits s) edits) w in
  queue (other s) w' = queue (other s) w ++ deltas edits (peer s w)
  /\ queue s w' = queue s w
  /\ peer (other s) w' = peer (other s) w
  /\ peer s w' = replay edits (peer s w).
Proof.
  cbv zeta. revert w.
  induction edits as [|m edits IH]; intros w Hatt Hoff.
  - simpl. rewrite app_nil_r. repeat split.
  - change (run (map (Edits s) (m :: edits)) w)
      with (run (map (Edits s) edits) (edit s m w)).
    destruct (edit_relays s m w) as (A & B & _).
    destruct (IH (edit s m w)) as (Q1 & Q2 & P1 & P2).
    { now apply edit_keeps_attached. }
    { now rewrite A, B. }
    rewrite Q1, Q2, P1, P2, replay_cons.
    rewrite (edit_source s m w Hatt), (edit_dest_offline s m w Hatt Hoff).
    assert (HQ : queue (other s) (edit s m w)
                 = queue (other s) w
                   ++ match (local_edit m (peer s w)).2 with
                      | Some u => [u] | None => [] end
                 /\ queue s (edit s m w) = queue s w).
    { rewrite edit_attached_eq, Hoff by assumption.
      destruct (local_edit m (peer s w)) as [p [u|]]; cbn [fst snd].
      - rewrite relay_offline, emit_eq. now destruct s.
      - rewrite app_nil_r. now destruct s. }
    destruct HQ as [-> ->]. simpl.
    destruct (local_edit m (peer s w)) as [p [u|]]; cbn [fst snd];
      rewrite <- ?app_assoc, ?app_nil_r; repeat split.
Qed.

End EngineMore.

(* ================================================================== *)
(** * More about the counters *)

Section CountersMore.
Context {engine : DocEngine}.

Implicit Types (p : CRDTPeer) (m : gmap string Z).

Lemma counterMagnitude_nonneg m : 0 <= counterMagnitude m.
Proof. rewrite counterMagnitude_magnitude. apply magnitude_nonneg. Qed.

(** Setting a key replaces what it held in the sum. *)
Lemma counterTotal_spec_set m (k : string) (v : Z) :
  counterTotal_spec (<[k := v]> m)
  = counterTotal_spec m - default 0 (m !! k) + v.
Proof.
  destruct (m !! k) as [x|] eqn:Hk; simpl.
  - rewrite <- (insert_delete_eq m k v).
    rewrite <- (insert_delete_id m k x Hk) at 2.
    rewrite !counterTotal_spec_insert by apply lookup_delete_eq. lia.
  - rewrite counterTotal_spec_insert by assumption. lia.
Qed.

Lemma counterMagnitude_set m (k : string) (v : Z) :
  counterMagnitude (<[k := v]> m)
  = counterMagnitude m - Z.abs (default 0 (m !! k)) + Z.abs v.
Proof.
  destruct (m !! k) as [x|] eqn:Hk; simpl.
  - rewrite <- (insert_delete_eq m k v).
    rewrite <- (insert_delete_id m k x Hk) at 2.
    rewrite !counterMagnitude_insert by apply lookup_delete_eq. lia.
  - rewrite counterMagnitude_insert by assumption. lia.
Qed.

Lemma counterMagnitude_key m (k : string) :
  Z.abs (default 0 (m !! k)) <= counterMagnitude m.
Proof.
  destruct (m !! k) as [x|] eqn:Hk; simpl.
  - rewrite <- (insert_delete_id m k x Hk).
    rewrite counterMagnitude_insert by apply lookup_delete_eq.
    pose proof (counterMagnitude_nonneg (delete k m)). lia.
  - apply counterMagnitude_nonneg.
Qed.

Section Contract.
Context {contract : MapContract engine}.

Lemma click_counters (c : LocalEdit) p :
  is_click c ->
  counters (local_edit c p).1
  = <[name p := match c with
                | DecrementCounter => Number_sub (current p) 1
                | _ => Number_add (current p) 1
                end]> (counters p)
  /\ name (local_edit c p).1 = name p.
Proof.
  intros Hc. split; [|apply local_edit_keeps].
  destruct c; [destruct Hc| |]; cbn [local_edit];
    unfold incrementCounter, decrementCounter, counters at 1;
    rewrite (proj1 (transact_doc _ p)), counters_set; reflexivity.
Qed.

(** A click on whole numbers, away from the limit. *)
Lemma click_whole (c : LocalEdit) p m :
  is_click c -> counters p = Finite <$> m ->
  counterMagnitude m + 1 <= SAFE ->
  counters (local_edit c p).1
  = Finite <$> <[name p := default 0 (m !! name p) + click c]> m.
Proof.
  intros Hc Hm Hb. rewrite (proj1 (click_counters c p Hc)).
  assert (Hcur : current p = Finite (default 0 (m !! name p))).
  { unfold current. rewrite Hm, lookup_fmap. now destruct (m !! name p). }
  pose proof (counterMagnitude_key m (name p)) as Hk.
  rewrite Hcur, fmap_insert, Hm.
  assert (Hv : match c with
               | DecrementCounter =>
                   Number_sub (Finite (default 0 (m !! name p))) 1
               | _ => Number_add (Finite (default 0 (m !! name p))) 1
               end = Finite (default 0 (m !! name p) + click c)).
  { destruct c; [destruct Hc| |]; cbn [click].
    - apply Number_add_safe. lia.
    - rewrite Number_sub_safe by lia. f_equal. }
  now rewrite Hv.
Qed.

(** At 2^53 the plus button has no effect any more: 2^53 + 1 is not a
    number, and the sum is rounded back. *)
Lemma incrementCounter_stalls p :
  counters p !! name p = Some (Finite SAFE) ->
  counters (incrementCounter p).1 !! name p = Some (Finite SAFE).
Proof.
  intros Hp. unfold incrementCounter, counters at 1.
  rewrite (proj1 (transact_doc _ p)), counters_set, lookup_insert_eq.
  unfold current. rewrite Hp. reflexivity.
Qed.

Section ForEach.
Context {forEach : ForEachContract engine}.

(** X9.  Clicks add up: on a replica whose counters are whole numbers,
    after a sequence of increments and decrements that keeps the magnitudes
    within 2^53 in total, its own key and the total have both moved by the
    number of increments minus the number of decrements; and no sequence of
    clicks changes another key. *)
Theorem clicks_add_up (clicks : list LocalEdit) p m :
  Forall is_click clicks ->
  counters p = Finite <$> m ->
  counterMagnitude m + Z.of_nat (length clicks) <= SAFE ->
  current (replay clicks p) = Finite (default 0 (m !! name p) + net clicks)
  /\ getCounterTotal (replay clicks p)
     = Finite (counterTotal_spec m + net clicks)
  /\ (forall k, k <> name p ->
        counters (replay clicks p) !! k = counters p !! k).
Proof.
  intros Hall. revert p m.
  induction Hall as [|c clicks Hc _ IH]; intros p m Hm Hb.
  - cbn [replay fold_left net foldr length] in *. rewrite !Z.add_0_r.
    split; [|split; [|reflexivity]].
    + unfold current. rewrite Hm, lookup_fmap. now destruct (m !! name p).
    + unfold getCounterTotal. apply total_of_whole_values; [|lia].
      rewrite <- Hm. apply forEach_values.
  - change (replay (c :: clicks) p) with (replay clicks (local_edit c p).1).
    cbn [length] in Hb. rewrite Nat2Z.inj_succ in Hb.
    pose proof (counterMagnitude_nonneg m) as Hnn.
    pose proof (counterMagnitude_key m (name p)) as Hk.
    assert (Hn : name (local_edit c p).1 = name p) by apply local_edit_keeps.
    pose proof (click_whole c p m Hc Hm ltac:(lia)) as Hm'.
    set (own := default 0 (m !! name p)) in *.
    assert (Hclick : Z.abs (click c) <= 1)
      by (destruct c; [destruct Hc| |]; cbn [click]; lia).
    destruct (IH (local_edit c p).1 (<[name p := own + click c]> m) Hm')
      as (I1 & I2 & I3).
    { rewrite counterMagnitude_set. fold own. lia. }
    rewrite Hn, lookup_insert_eq in I1. cbn [default from_option id] in I1.
    rewrite counterTotal_spec_set in I2. fold own in I2.
    cbn [net foldr]. fold (net clicks).
    split; [|split].
    + rewrite I1. f_equal. lia.
    + rewrite I2. f_equal. lia.
    + intros k Hkn. rewrite I3 by now rewrite Hn.
      rewrite (proj1 (click_counters c p Hc)).
      apply lookup_insert_ne. congruence.
Qed.

End ForEach.
End Contract.
End CountersMore.

(* ================================================================== *)
(** * More about reconnecting *)

Section ReconnectMore.
Context {engine : DocEngine} {clock : WallClock} {contract : MergeContract engine}.

Implicit Types (w : SyncEngine) (s : Slot).

(** X4.  Whenever [setOnline(name, true)] returns with both slots online,
    both replicas hold the same document, the join of what they held, and
    both queues are empty; calling it once more changes no document. *)
Theorem reconnect_converges (peerName : string) w w' :
  setOnline peerName true w = Ok w' ->
  peerAOnline w' = true -> peerBOnline w' = true ->
  doc (peerA w') = join (doc (peerA w)) (doc (peerB w))
  /\ doc (peerB w') = doc (peerA w')
  /\ queueForA w' = [] /\ queueForB w' = []
  /\ exists w'', setOnline peerName true w' = Ok w''
       /\ doc (peerA w'') = doc (peerA w') /\ doc (peerB w'') = doc (peerB w').
Proof.
  intros E HA HB.
  assert (Hrec : forall v v' s, slot_named peerName v = Some s ->
            setOnline peerName true v = Ok v' ->
            peerAOnline v' = true -> peerBOnline v' = true ->
            v' = reconcile (set_online s true v)).
  { intros v v' s Hs Ev HAv HBv.
    destruct (setOnline_Ok _ _ _ _ _ Hs Ev) as (_ & _ & _ & Ho & _).
    rewrite setOnline_slot_named, Hs in Ev. cbv zeta in Ev.
    assert (Hc : peerAOnline (set_online s true v) = true
                 /\ peerBOnline (set_online s true v) = true).
    { destruct s; simpl in *; split; congruence. }
    rewrite (proj1 Hc), (proj2 Hc) in Ev. simpl in Ev. congruence. }
  destruct (slot_named peerName w) as [s|] eqn:Hs.
  2:{ rewrite setOnline_slot_named, Hs in E. discriminate. }
  pose proof (Hrec w w' s Hs E HA HB) as ->.
  destruct (reconcile_docs (set_online s true w)) as [DA DB].
  pose proof (reconcile_frame (set_online s true w)) as
    (_ & _ & QA & QB & _ & NA & NB & _). cbv zeta in *.
  assert (Hd : doc (peerA (set_online s true w)) = doc (peerA w)
               /\ doc (peerB (set_online s true w)) = doc (peerB w))
    by (destruct s; split; reflexivity).
  destruct Hd as [HdA HdB]. rewrite HdA, HdB in DA, DB.
  split; [exact DA|]. split; [congruence|]. split; [exact QA|].
  split; [exact QB|].
  set (w1 := reconcile (set_online s true w)) in *.
  assert (Hs1 : slot_named peerName w1 = Some s).
  { rewrite (slot_named_same_names peerName (set_online s true w) w1 NA NB).
    rewrite <- Hs. apply slot_named_same_names; now destruct s. }
  destruct (setOnline peerName true w1) as [w2|msg] eqn:E2.
  2:{ rewrite setOnline_slot_named, Hs1 in E2. discriminate. }
  exists w2. split; [reflexivity|].
  destruct (setOnline_Ok _ _ _ _ _ Hs1 E2) as (_ & _ & Hb & Ho & _).
  assert (HA2 : peerAOnline w2 = true) by (destruct s; simpl in *; congruence).
  assert (HB2 : peerBOnline w2 = true) by (destruct s; simpl in *; congruence).
  pose proof (Hrec w1 w2 s Hs1 E2 HA2 HB2) as ->.
  destruct (reconcile_docs (set_online s true w1)) as [DA2 DB2].
  assert (Hd : doc (peerA (set_online s true w1)) = doc (peerA w1)
               /\ doc (peerB (set_online s true w1)) = doc (peerB w1))
    by (destruct s; split; reflexivity).
  destruct Hd as [HdA2 HdB2]. rewrite HdA2, HdB2 in DA2, DB2.
  rewrite DA2, DB2, DB, DA. split; apply join_idemp.
Qed.

End ReconnectMore.

(* ================================================================== *)
(** * The text binding of the panel *)

Module PeerPanelFacts.
Import PeerPanel.

Section TextBinding.
Context {Char : Type} `{EqDecision Char}.

Implicit Types (oldValue newValue : list Char).

Local Open Scope nat_scope.

(** The first loop stops, at the end of a common prefix. *)
Lemma scan_start_stops (fuel : nat) oldValue newValue (start : nat) :
  take start oldValue = take start newValue ->
  start <= length oldValue -> start <= length newValue ->
  length oldValue - start < fuel ->
  exists st, scan_start fuel oldValue newValue start = Some st
    /\ st <= length oldValue /\ st <= length newValue
    /\ take st oldValue = take st newValue
    /\ (st <? length oldValue) && (st <? length newValue)
       && bool_decide (oldValue !! st = newValue !! st) = false.
Proof.
  revert start. induction fuel as [|fuel IH]; intros start Ht Ho Hn Hf; [lia|].
  simpl.
  destruct ((start <? length oldValue) && (start <? length newValue)
            && bool_decide (oldValue !! start = newValue !! start)) eqn:E.
  - apply andb_true_iff in E as [E E3]. apply andb_true_iff in E as [E1 E2].
    apply Nat.ltb_lt in E1, E2. apply bool_decide_eq_true in E3.
    destruct (lookup_lt_is_Some_2 oldValue start E1) as [x Hx].
    apply IH; try lia.
    rewrite (take_S_r _ _ x Hx), (take_S_r newValue _ x) by congruence.
    now rewrite Ht.
  - exists start. repeat split; assumption.
Qed.

(** The second loop stops, at the start of a common suffix. *)
Lemma scan_ends_stops (fuel : nat) oldValue newValue (start oldEnd newEnd : nat) :
  drop oldEnd oldValue = drop newEnd newValue ->
  start <= oldEnd <= length oldValue -> start <= newEnd <= length newValue ->
  oldEnd - start < fuel ->
  exists oe ne, scan_ends fuel oldValue newValue start oldEnd newEnd = Some (oe, ne)
    /\ start <= oe <= length oldValue /\ start <= ne <= length newValue
    /\ drop oe oldValue = drop ne newValue.
Proof.
  revert oldEnd newEnd.
  induction fuel as [|fuel IH]; intros oldEnd newEnd Hd Ho Hn Hf; [lia|].
  simpl.
  destruct ((start <? oldEnd) && (start <? newEnd)
            && bool_decide (oldValue !! (oldEnd - 1) = newValue !! (newEnd - 1)))
    eqn:E.
  - apply andb_true_iff in E as [E E3]. apply andb_true_iff in E as [E1 E2].
    apply Nat.ltb_lt in E1, E2. apply bool_decide_eq_true in E3.
    destruct (lookup_lt_is_Some_2 oldValue (oldEnd - 1)) as [x Hx]; [lia|].
    apply IH; try lia.
    rewrite (drop_S _ x _ Hx), (drop_S newValue x (newEnd - 1)) by congruence.
    replace (S (oldEnd - 1)) with oldEnd by lia.
    replace (S (newEnd - 1)) with newEnd by lia.
    now rewrite Hd.
  - exists oldEnd, newEnd. repeat split; try lia. assumption.
Qed.

(** The two loops find the change: a common prefix, a common suffix, and
    what lies between them in the old and in the new text. *)
Lemma input_ops_change oldValue newValue :
  exists start oldEnd newEnd,
    input_ops false oldValue newValue
    = Some ((if 0 <? oldEnd - start
             then [OpDelete start (oldEnd - start)] else [])
            ++ (if 0 <? newEnd - start
                then [OpInsert start (slice newValue start newEnd)] else []))
    /\ start <= oldEnd <= length oldValue
    /\ start <= newEnd <= length newValue
    /\ length (slice newValue start newEnd) = newEnd - start
    /\ slice newValue start newEnd
       = take (newEnd - start) (drop start newValue)
    /\ take start oldValue ++ slice newValue start newEnd
         ++ drop oldEnd oldValue = newValue
    /\ (oldValue = newValue -> oldEnd = start /\ newEnd = start).
Proof.
  unfold input_ops.
  destruct (scan_start_stops (S (length oldValue)) oldValue newValue 0)
    as (st & -> & Hso & Hsn & Hpre & Hexit); try reflexivity; try lia.
  destruct (scan_ends_stops (S (length oldValue)) oldValue newValue st
              (length oldValue) (length newValue))
    as (oe & ne & -> & Hoe & Hne & Hsuf); try lia.
  { now rewrite !drop_all. }
  exists st, oe, ne. split; [reflexivity|].
  split; [assumption|]. split; [assumption|].
  assert (Hmid : length (slice newValue st ne) = ne - st).
  { unfold slice. rewrite length_take, length_drop. lia. }
  split; [assumption|]. split; [reflexivity|]. split.
  - unfold slice. rewrite Hpre, Hsuf, app_assoc, take_take_drop.
    replace (st + (ne - st)) with ne by lia. apply take_drop.
  - intros <-.
    assert (st = length oldValue); [|lia].
    destruct (Nat.ltb_spec st (length oldValue)) as [Hlt|]; [|lia].
    simpl in Hexit. rewrite bool_decide_eq_false in Hexit.
    now destruct Hexit.
Qed.

Section Shared.
Context (charCode : Char -> N) {T : SharedText}
        {contract : SharedTextContract charCode T}.

(** After a deletion that ends inside the text, the cut at its start has
    the same unit on its left, and a unit on its right. *)
Lemma cuts_pair_after_delete oldValue (start oldEnd : nat) :
  start < oldEnd <= length oldValue ->
  cuts_pair charCode oldValue start = false ->
  cuts_pair charCode (take start oldValue ++ drop oldEnd oldValue) start
  = false.
Proof.
  intros Hr. destruct start as [|j]; [reflexivity|]. cbn [cuts_pair].
  rewrite (lookup_app_l _ _ j) by (rewrite length_take; lia).
  rewrite lookup_take_lt by lia.
  destruct (lookup_lt_is_Some_2 oldValue j) as [c Hc]; [lia|].
  destruct (lookup_lt_is_Some_2 oldValue (S j)) as [c' Hc']; [lia|].
  rewrite Hc, Hc'. intros ->.
  now destruct ((take (S j) oldValue ++ drop oldEnd oldValue) !! S j).
Qed.

(** X10.  The handler of the textarea's input event does nothing while
    the panel itself is writing the textarea.  Otherwise it turns the
    change into at most one deletion followed by at most one insertion at
    the same index, and none when the two texts are equal; the deletion is
    not empty and stays inside the old text; the insertion is not empty and
    is a piece of the new text.  When none of these operations cuts the old
    text behind the first half of a surrogate pair, they replay the change:
    after them the shared text is the content of the textarea. *)
Theorem input_ops_replay_the_change (t : YText) newValue :
  let oldValue := toString t in
  input_ops true oldValue newValue = Some []
  /\ exists ops,
       input_ops false oldValue newValue = Some ops
       /\ (ops = []
           \/ (exists i n, ops = [OpDelete i n])
           \/ (exists i s, ops = [OpInsert i s])
           \/ (exists i n s, ops = [OpDelete i n; OpInsert i s]))
       /\ (ops = [] <-> oldValue = newValue)
       /\ (forall i n, In (OpDelete i n) ops ->
             0 < n /\ i + n <= length oldValue)
       /\ (forall i s, In (OpInsert i s) ops ->
             s <> [] /\ s = take (length s) (drop i newValue)
             /\ i + length s <= length newValue)
       /\ (clean_cuts charCode oldValue ops ->
           toString (apply_ops ops t) = newValue).
Proof.
  intros oldValue. split; [reflexivity|].
  destruct (input_ops_change oldValue newValue)
    as (st & oe & ne & -> & Hoe & Hne & Hlen & Hmid & Hnew & Hsame).
  set (mid := slice newValue st ne) in *.
  assert (Hnil : ne - st = 0 -> mid = [])
    by (intros E; apply nil_length_inv; lia).
  assert (Hmid' : mid = take (length mid) (drop st newValue))
    by (rewrite Hlen; exact Hmid).
  eexists; split; [reflexivity|].
  destruct (Nat.ltb_spec 0 (oe - st)) as [Hd|Hd];
    destruct (Nat.ltb_spec 0 (ne - st)) as [Hi|Hi]; cbn [app].
  - (* a deletion, then an insertion *)
    split; [right; right; right; eauto|].
    split; [split; [discriminate | intros E; destruct (Hsame E); lia]|].
    split; [|split].
    + intros i n [[= <- <-]|[[=]|[]]]. lia.
    + intros i s [[=]|[[= <- <-]|[]]]. rewrite <- Hmid', Hlen.
      repeat split; try lia. intros E. rewrite E in Hlen. simpl in Hlen. lia.
    + intros Hclean. cbn [apply_ops fold_left].
      assert (H1 : toString (apply_op (OpDelete st (oe - st)) t)
                   = take st oldValue ++ drop oe oldValue).
      { rewrite (op_splices charCode).
        - cbn [splice_op]. fold oldValue.
          now replace (st + (oe - st)) with oe by lia.
        - cbn [op_in_range]. fold oldValue. lia.
        - intros k Hk. apply (Hclean (OpDelete st (oe - st))); [now left|].
          exact Hk. }
      rewrite (op_splices charCode).
      * cbn [splice_op]. rewrite H1.
        rewrite take_app_length' by (rewrite length_take; lia).
        rewrite drop_app_length' by (rewrite length_take; lia).
        exact Hnew.
      * cbn [op_in_range]. rewrite H1, length_app, length_take. lia.
      * intros k [<-|[]]. rewrite H1.
        apply cuts_pair_after_delete; [lia|].
        apply (Hclean (OpDelete st (oe - st))); [now left|]. now left.
  - (* a deletion *)
    rewrite (Hnil ltac:(lia)) in Hnew. cbn [app] in Hnew.
    split; [right; left; eauto|].
    split; [split; [discriminate | intros E; destruct (Hsame E); lia]|].
    split; [|split].
    + intros i n [[= <- <-]|[]]. lia.
    + intros i s [[=]|[]].
    + intros Hclean. cbn [apply_ops fold_left].
      rewrite (op_splices charCode).
      * cbn [splice_op]. fold oldValue.
        now replace (st + (oe - st)) with oe by lia.
      * cbn [op_in_range]. fold oldValue. lia.
      * intros k Hk. apply (Hclean (OpDelete st (oe - st))); [now left|].
        exact Hk.
  - (* an insertion *)
    replace oe with st in Hnew by lia.
    split; [right; right; left; eauto|].
    split; [split; [discriminate | intros E; destruct (Hsame E); lia]|].
    split; [|split].
    + intros i n [[=]|[]].
    + intros i s [[= <- <-]|[]]. rewrite <- Hmid', Hlen.
      repeat split; try lia. intros E. rewrite E in Hlen. simpl in Hlen. lia.
    + intros Hclean. cbn [apply_ops fold_left].
      rewrite (op_splices charCode).
      * cbn [splice_op]. fold oldValue. exact Hnew.
      * cbn [op_in_range]. fold oldValue. lia.
      * intros k Hk. apply (Hclean (OpInsert st mid)); [now left|].
        exact Hk.
  - (* no change *)
    replace oe with st in Hnew by lia.
    rewrite (Hnil ltac:(lia)) in Hnew. cbn [app] in Hnew.
    rewrite take_drop in Hnew.
    split; [now left|]. split; [split; [intros _; exact Hnew | reflexivity]|].
    split; [|split].
    + intros i n [].
    + intros i s [].
    + intros _. exact Hnew.
Qed.

End Shared.

(* ------------------------------------------------------------------ *)
(** ** The caret *)

Lemma adjust_fold (delta : list (@DeltaOp Char)) (index cursorPos rest n : nat) :
  delta_length delta rest = Some n ->
  cursorPos <= index + rest ->
  (fold_left (@adjust_step Char) delta (index, cursorPos)).2 <= index + n.
Proof.
  revert index cursorPos rest n.
  induction delta as [|op delta IH]; intros index cursorPos rest n Hlen Hc.
  - simpl in *. injection Hlen as <-. exact Hc.
  - simpl in Hlen. cbn [fold_left]. unfold adjust_step at 2.
    destruct (op_retain op) as [r|].
    { destruct (Nat.leb_spec r rest); [|discriminate].
      destruct (delta_length delta (rest - r)) as [k|] eqn:Ek; [|discriminate].
      injection Hlen as <-.
      pose proof (IH (index + r) cursorPos (rest - r) k Ek). lia. }
    destruct (op_insert op) as [i|].
    { destruct (delta_length delta rest) as [k|] eqn:Ek; [|discriminate].
      injection Hlen as <-.
      destruct (Nat.leb_spec index cursorPos).
      - pose proof (IH (index + inserted_length i)
                      (cursorPos + inserted_length i) rest k Ek). lia.
      - pose proof (IH (index + inserted_length i) cursorPos rest k Ek). lia. }
    destruct (op_delete op) as [d|].
    { destruct (Nat.leb_spec d rest); [|discriminate].
      destruct (Nat.ltb_spec index cursorPos).
      - pose proof (IH index (cursorPos - Nat.min d (cursorPos - index))
                      (rest - d) n Hlen). lia.
      - pose proof (IH index cursorPos (rest - d) n Hlen). lia. }
    now apply (IH index cursorPos rest n).
Qed.

Lemma adjust_behind (delta : list (@DeltaOp Char)) (index cursorPos : nat) :
  cursorPos < index ->
  (fold_left (@adjust_step Char) delta (index, cursorPos)).2 = cursorPos.
Proof.
  revert index. induction delta as [|op delta IH]; intros index Hc.
  - reflexivity.
  - cbn [fold_left]. unfold adjust_step at 2.
    destruct (op_retain op) as [r|]; [apply IH; lia|].
    destruct (op_insert op) as [i|].
    { destruct (Nat.leb_spec index cursorPos); [lia|]. apply IH. lia. }
    destruct (op_delete op) as [d|]; [|now apply IH].
    destruct (Nat.ltb_spec index cursorPos); [lia|]. now apply IH.
Qed.

(** X11.  The caret after a remote change is a position of the new text:
    for a delta that fits a text of [n] units and produces one of [n']
    units, a caret within the old text is moved to a place within the new
    one.  A change that starts strictly right of the caret leaves it where
    it is. *)
Theorem adjusted_caret_stays_in_text (delta : list (@DeltaOp Char)) (cursorPos n n' : nat) :
  delta_length delta n = Some n' ->
  cursorPos <= n ->
  adjust_cursor delta cursorPos <= n'
  /\ (forall op rest r,
        delta = op :: rest -> op_retain op = Some r -> cursorPos < r ->
        adjust_cursor delta cursorPos = cursorPos).
Proof.
  intros Hlen Hc. split.
  - apply (adjust_fold delta 0 cursorPos n n' Hlen). lia.
  - intros op rest r -> Hop Hr. unfold adjust_cursor. cbn [fold_left].
    unfold adjust_step at 2. rewrite Hop.
    apply adjust_behind. lia.
Qed.

End TextBinding.

End PeerPanelFacts.

(** The reference shared text meets the contract. *)
Module RefTextLaws.

Lemma split_clean (value : list N) (k : nat) :
  PeerPanel.cuts_pair id value k = false -> RefText.split value k = value.
Proof. intros H. unfold RefText.split. now rewrite H. Qed.

Lemma text_contract : PeerPanel.SharedTextContract id RefText.text.
Proof.
  split. intros [index length|index text] t _ Hc;
    cbn [PeerPanel.apply_op PeerPanel.splice_op PeerPanel.toString
         PeerPanel.Y_delete PeerPanel.Y_insert RefText.text id] in *.
  - unfold RefText.delete. cbv zeta.
    rewrite (split_clean t index) by (apply Hc; now left).
    rewrite (split_clean t (index + length)) by (apply Hc; right; now left).
    reflexivity.
  - unfold RefText.insert. cbv zeta.
    rewrite (split_clean t index) by (apply Hc; now left).
    reflexivity.
Qed.

End RefTextLaws.

(* ================================================================== *)
(** * The log of sync events *)

Module UpdateLogFacts.
Import UpdateLog.

Section Log.
Variable toLocaleTimeString : Z -> string.
Variable scrollHeight : list Entry -> nat.

Local Open Scope nat_scope.

Local Abbreviation render_from := (UpdateLog.render_from toLocaleTimeString).
Local Abbreviation render := (UpdateLog.render toLocaleTimeString).
Local Abbreviation logged := (UpdateLog.logged toLocaleTimeString scrollHeight).
Local Abbreviation addEvent := (UpdateLog.addEvent toLocaleTimeString scrollHeight).

Lemma nodes_render_from (id : nat) (events : list SyncEvent) :
  map node (render_from id events) = seq id (length events).
Proof.
  revert id. induction events as [|e events IH]; intros id; simpl;
    [reflexivity | now rewrite IH].
Qed.

Lemma length_render_from (id : nat) (events : list SyncEvent) :
  length (render_from id events) = length events.
Proof.
  rewrite <- (length_map node), nodes_render_from. apply length_seq.
Qed.

Lemma render_from_snoc (id : nat) (events : list SyncEvent) (e : SyncEvent) :
  render_from id (events ++ [e])
  = render_from id events ++ [render (id + length events) e].
Proof.
  revert id. induction events as [|x events IH]; intros id; simpl.
  - now rewrite Nat.add_0_r.
  - rewrite IH. now rewrite Nat.add_succ_r.
Qed.

Lemma remove_first (e : Entry) (rest : list Entry) :
  ~ In (node e) (map node rest) -> remove e (e :: rest) = rest.
Proof.
  intros Hn. unfold remove; simpl. rewrite Nat.eqb_refl; simpl.
  induction rest as [|x rest IH]; [reflexivity|]. simpl.
  destruct (Nat.eqb_spec (node x) (node e)) as [E|_]; simpl.
  - exfalso. apply Hn. now left.
  - rewrite IH; [reflexivity|]. intros Hin. apply Hn. now right.
Qed.

(** The loop drops the oldest elements, from the array and from the
    document alike, until [MAX_ENTRIES] are left. *)
Lemma trim_keeps_latest (es : list Entry) :
  List.NoDup (map node es) ->
  trim es es = (drop (length es - MAX_ENTRIES) es,
                drop (length es - MAX_ENTRIES) es).
Proof.
  induction es as [|e es IH]; intros Hnd; [reflexivity|].
  cbn [trim]. destruct (Nat.ltb_spec MAX_ENTRIES (length (e :: es))) as [Hl|Hl].
  - cbn [map] in Hnd. apply List.NoDup_cons_iff in Hnd as [Hnotin Hnd'].
    rewrite remove_first by assumption. rewrite IH by assumption.
    cbn [length] in *.
    replace (S (length es) - MAX_ENTRIES) with (S (length es - MAX_ENTRIES))
      by lia.
    reflexivity.
  - replace (length (e :: es) - MAX_ENTRIES) with 0 by lia. reflexivity.
Qed.

Lemma logged_snoc (events : list SyncEvent) (e : SyncEvent) :
  logged (events ++ [e]) = addEvent e (logged events).
Proof. unfold UpdateLog.logged. now rewrite fold_left_app. Qed.

(** X12.  The log is bounded: after any sequence of events it holds the
    elements of the last [MAX_ENTRIES] of them, oldest first, the children
    of the log's body are exactly these elements, and the body is scrolled
    to its end. *)
Theorem log_keeps_the_latest_entries (events : list SyncEvent) :
  let log := logged events in
  entries log = drop (length events - MAX_ENTRIES) (render_from 0 events)
  /\ logBody log = entries log
  /\ length (entries log) = Nat.min (length events) MAX_ENTRIES
  /\ created log = length events
  /\ (events <> [] -> scrollTop log = scrollHeight (logBody log)).
Proof.
  cbv zeta.
  assert (H : entries (logged events)
              = drop (length events - MAX_ENTRIES) (render_from 0 events)
              /\ logBody (logged events) = entries (logged events)
              /\ created (logged events) = length events
              /\ (events <> [] ->
                  scrollTop (logged events) = scrollHeight (logBody (logged events)))).
  { induction events as [|e events IH] using rev_ind.
    - repeat split. intros Hne. now destruct Hne.
    - destruct IH as (He & Hb & Hc & _).
      rewrite logged_snoc. unfold UpdateLog.addEvent.
      rewrite Hb, Hc, He.
      set (k := length events - MAX_ENTRIES).
      set (all := render_from 0 (events ++ [e])).
      assert (Hall : drop k (render_from 0 events)
                       ++ [render (length events) e] = drop k all).
      { unfold all. rewrite render_from_snoc, drop_app_le; [reflexivity|].
        rewrite length_render_from. unfold k. lia. }
      rewrite Hall.
      assert (Hnd : List.NoDup (map node (drop k all))).
      { assert (Hn : List.NoDup (map node all)).
        { unfold all. rewrite nodes_render_from. apply List.seq_NoDup. }
        rewrite <- (take_drop k all), map_app in Hn.
        now apply List.NoDup_app_remove_l in Hn. }
      rewrite (trim_keeps_latest _ Hnd). cbn [entries logBody created scrollTop].
      assert (Hlen : length all = S (length events)).
      { unfold all. rewrite length_render_from, length_app. simpl. lia. }
      rewrite drop_drop, length_drop, Hlen, length_app. simpl.
      replace (k + (S (length events) - k - MAX_ENTRIES))
        with (length events + 1 - MAX_ENTRIES) by (unfold k; lia).
      repeat split. lia. }
  destruct H as (He & Hb & Hc & Hs).
  repeat split; try assumption.
  rewrite He, length_drop, length_render_from. lia.
Qed.

End Log.

End UpdateLogFacts.

(* ================================================================== *)
(** * The network controls *)

Module NetworkControlsFacts.

Section Controls.
Context {Y : DocEngine} {clock : WallClock}.

Implicit Types (w : SyncEngine) (s : Slot) (ui : NetworkControls.NetworkControls).

Local Abbreviation ctl_engine := NetworkControls.engine.
Local Abbreviation toggle := NetworkControls.toggle.
Local Abbreviation wired := NetworkControls.wired.

(** How many runs of [reconcile] one [setOnline] adds. *)
Lemma setOnline_reconciliations (peerName : string) (b : bool) w w' s :
  slot_named peerName w = Some s -> setOnline peerName b w = Ok w' ->
  reconciliations (trace w')
  = (reconciliations (trace w)
     + (if b && online (other s) w then 1 else 0))%nat.
Proof.
  intros Hs. rewrite setOnline_slot_named, Hs. cbv zeta. intros [= <-].
  assert (Hc : b && peerAOnline (set_online s b w)
                 && peerBOnline (set_online s b w)
               = b && online (other s) w).
  { destruct s, b; simpl; try reflexivity.
    now rewrite andb_true_r. }
  rewrite Hc. destruct (b && online (other s) w).
  - pose proof (reconcile_frame (set_online s b w)) as F. cbv zeta in F.
    destruct F as (_ & _ & _ & _ & _ & _ & _ & _ & _ & _ & _ & t & Ht & _ & H1).
    rewrite Ht, reconciliations_app, H1. now destruct s.
  - rewrite Nat.add_0_r. now destruct s.
Qed.

Lemma wired_slot_named ui s :
  wired ui ->
  slot_named (match s with
              | SlotA => NetworkControls.peerAName ui
              | SlotB => NetworkControls.peerBName ui
              end) (ctl_engine ui) = Some s.
Proof.
  intros (HA & HB & Hne). unfold slot_named. destruct s.
  - now rewrite HA, String.eqb_refl.
  - rewrite HB, String.eqb_refl.
    destruct (String.eqb_spec (name (peerB (ctl_engine ui)))
                (name (peerA (ctl_engine ui)))) as [E|_]; [|reflexivity].
    now destruct Hne.
Qed.

(** X13.  A click on the button of a replica, in controls that name the
    two replicas of their engine by two different names: [toggle] throws
    nothing and flips the flag of that replica, leaving the other flag; it
    makes the engine reconcile once when the click brings the replica
    online while the other one is online, and not at all otherwise; the
    clicked button and the status dot of its panel get the class of the new
    state, the other button and dot stay, and the connection line is marked
    disconnected exactly when a replica is offline. *)
Theorem toggle_flips_one_peer (btn : Slot) ui :
  wired ui ->
  exists ui',
    toggle btn ui = (ui', None)
    /\ wired ui'
    /\ online btn (ctl_engine ui') = negb (online btn (ctl_engine ui))
    /\ online (other btn) (ctl_engine ui') = online (other btn) (ctl_engine ui)
    /\ reconciliations (trace (ctl_engine ui'))
       = (reconciliations (trace (ctl_engine ui))
          + (if negb (online btn (ctl_engine ui))
                && online (other btn) (ctl_engine ui)
             then 1 else 0))%nat
    /\ NetworkControls.className (NetworkControls.button btn ui')
       = String.append "btn btn-net "
           (if online btn (ctl_engine ui') then "online" else "offline")
    /\ NetworkControls.statusDot btn ui'
       = String.append "status-dot "
           (if online btn (ctl_engine ui') then "online" else "offline")
    /\ NetworkControls.button (other btn) ui'
       = NetworkControls.button (other btn) ui
    /\ NetworkControls.statusDot (other btn) ui'
       = NetworkControls.statusDot (other btn) ui
    /\ NetworkControls.disconnected ui'
       = negb (peerAOnline (ctl_engine ui') && peerBOnline (ctl_engine ui')).
Proof.
  intros Hw.
  pose proof (wired_slot_named ui btn Hw) as Hs.
  pose proof (wired_slot_named ui SlotA Hw) as HsA.
  pose proof (wired_slot_named ui SlotB Hw) as HsB.
  destruct Hw as (HA & HB & Hne).
  set (n := match btn with
            | SlotA => NetworkControls.peerAName ui
            | SlotB => NetworkControls.peerBName ui
            end) in *.
  set (new := negb (online btn (ctl_engine ui))).
  destruct (setOnline n new (ctl_engine ui)) as [w'|msg] eqn:E;
    [|rewrite setOnline_slot_named, Hs in E; discriminate].
  pose proof (setOnline_Ok n new _ _ btn Hs E) as (NA & NB & Hon & Hoff & _).
  pose proof (setOnline_reconciliations n new _ _ btn Hs E) as Hrec.
  assert (HsA' : slot_named (NetworkControls.peerAName ui) w' = Some SlotA)
    by (rewrite (slot_named_same_names _ (ctl_engine ui) w'); assumption).
  assert (HsB' : slot_named (NetworkControls.peerBName ui) w' = Some SlotB)
    by (rewrite (slot_named_same_names _ (ctl_engine ui) w'); assumption).
  assert (Ht : toggle btn ui
               = (let b := NetworkControls.mkButton
                     (String.append "btn btn-net "
                        (if new then "online" else "offline"))
                     [NetworkControls.NetDot;
                      NetworkControls.TextNode
                        (String.append " "
                           (String.append n
                              (String.append " — "
                                 (if new then "Online" else "Offline"))))] in
                  match btn with
                  | SlotA =>
                      NetworkControls.mkNetworkControls w'
                        (NetworkControls.peerAName ui)
                        (NetworkControls.peerBName ui)
                        b (NetworkControls.buttonB ui)
                        (NetworkControls.PeerPanel_setOnline new)
                        (NetworkControls.statusDotB ui)
                        (negb (peerAOnline w' && peerBOnline w'))
                  | SlotB =>
                      NetworkControls.mkNetworkControls w'
                        (NetworkControls.peerAName ui)
                        (NetworkControls.peerBName ui)
                        (NetworkControls.buttonA ui) b
                        (NetworkControls.statusDotA ui)
                        (NetworkControls.PeerPanel_setOnline new)
                        (negb (peerAOnline w' && peerBOnline w'))
                  end, None)).
  { unfold NetworkControls.toggle.
    assert (En : (if match btn with SlotA => true | SlotB => false end
                  then NetworkControls.peerAName ui
                  else NetworkControls.peerBName ui) = n) by now destruct btn.
    cbv zeta. rewrite En, isPeerOnline_slot_named, Hs.
    fold new. rewrite E.
    destruct btn; cbn [NetworkControls.peerAName NetworkControls.peerBName
                       NetworkControls.engine];
      rewrite !isPeerOnline_slot_named, HsA', ?HsB'; cbn [online];
      destruct (peerAOnline w'); cbn [andb]; try reflexivity;
      rewrite ?isPeerOnline_slot_named, ?HsB'; reflexivity. }
  eexists. split; [exact Ht|].
  unfold new in *. clear Ht.
  destruct btn; cbn [NetworkControls.engine NetworkControls.button
                     NetworkControls.statusDot NetworkControls.className
                     NetworkControls.disconnected other
                     NetworkControls.buttonA NetworkControls.buttonB
                     NetworkControls.statusDotA NetworkControls.statusDotB] in *;
    cbv zeta;
    cbn [NetworkControls.engine NetworkControls.button
         NetworkControls.statusDot NetworkControls.className
         NetworkControls.disconnected other
         NetworkControls.buttonA NetworkControls.buttonB
         NetworkControls.statusDotA NetworkControls.statusDotB];
    (split; [unfold NetworkControls.wired;
             cbn [NetworkControls.engine NetworkControls.peerAName
                  NetworkControls.peerBName];
             rewrite NA, NB; auto|]);
    rewrite Hon;
    repeat (split; [first [reflexivity | assumption]|]); reflexivity.
Qed.

End Controls.

End NetworkControlsFacts.

(* ================================================================== *)
(** * The items of the shared text *)

Module AlgorithmVizFacts.

Section Items.
Context {Char : Type}.

Import AlgorithmViz.

Implicit Types (item : @YItem Char) (chain : list (@YItem Char)).

Lemma push_chars_lookup item (i j : nat) (str : list Char) (c : Char) :
  str !! j = Some c ->
  push_chars item i str !! j
  = Some (mkCharInfo c (id_client item) (id_clock item + (i + j))%nat
            (item_deleted item)).
Proof.
  revert i j. induction str as [|c' str IH]; intros i [|j] Hj;
    try discriminate; cbn [push_chars].
  - injection Hj as ->. now rewrite Nat.add_0_r.
  - etrans; [exact (IH (S i) j Hj)|].
    do 3 f_equal. lia.
Qed.

Lemma push_chars_chars item (i : nat) (str : list Char) :
  map char (push_chars item i str) = str.
Proof.
  revert i. induction str as [|c str IH]; intros i; cbn [push_chars map];
    [reflexivity|]. now rewrite IH.
Qed.

Lemma push_chars_deleted item (i : nat) (str : list Char) :
  map deleted (push_chars item i str) = repeat (item_deleted item) (length str).
Proof.
  revert i. induction str as [|c str IH]; intros i; cbn [push_chars map];
    [reflexivity|]. now rewrite IH.
Qed.

Lemma extractItems_app chain chain' :
  extractItems (chain ++ chain') = extractItems chain ++ extractItems chain'.
Proof.
  induction chain as [|item chain IH]; [reflexivity|].
  cbn [app extractItems]. now rewrite IH, app_assoc.
Qed.

Lemma extractItems_chars chain :
  map char (extractItems chain) = concat (map units chain).
Proof.
  induction chain as [|item chain IH]; [reflexivity|].
  cbn [extractItems map concat]. rewrite map_app, IH. f_equal.
  unfold units. destruct (content_str item); [apply push_chars_chars|reflexivity].
Qed.

(** X14.  [extractItems] lists the units of the items of the chain in the
    order of the chain, deleted items included and items without a string
    skipped; the unit at index [i] of an item is listed with the client of
    the item, the clock of the item plus [i], and the deletion flag of the
    item, at the place after all units of the items before it. *)
Theorem extractItems_lists_every_unit chain :
  map char (extractItems chain) = concat (map units chain)
  /\ length (extractItems chain)
     = list_sum (map (fun item => length (units item)) chain)
  /\ forall before item after (i : nat) (c : Char),
       chain = before ++ item :: after ->
       units item !! i = Some c ->
       extractItems chain !! (length (extractItems before) + i)%nat
       = Some (mkCharInfo c (id_client item) (id_clock item + i)%nat
                 (item_deleted item)).
Proof.
  split; [apply extractItems_chars|]. split.
  - induction chain as [|item chain IH]; [reflexivity|].
    cbn [extractItems map list_sum]. rewrite length_app, IH. f_equal.
    unfold units. destruct (content_str item); [|reflexivity].
    rewrite <- (length_map char), push_chars_chars. reflexivity.
  - intros before item after i c -> Hi.
    rewrite extractItems_app, lookup_app_r by lia.
    replace (length (extractItems before) + i - length (extractItems before))%nat
      with i by lia.
    cbn [extractItems]. unfold units in Hi.
    destruct (content_str item) as [str|]; [|discriminate].
    rewrite lookup_app_l
      by (rewrite <- (length_map char), push_chars_chars;
          now apply lookup_lt_Some in Hi).
    now rewrite (push_chars_lookup item 0 i str c Hi).
Qed.

End Items.

End AlgorithmVizFacts.

(* ================================================================== *)
(** * When the visualization is drawn *)

Module RenderScheduleFacts.

Import RenderSchedule.

Implicit Types (v : AlgorithmViz) (events : list Event).

Lemma scheduled_step (e : Event) v :
  scheduled v -> is_destroy e = false ->
  scheduled (step e v)
  /\ renders (step e v)
     = (renders v
        + match e with
          | Frame => if bool_decide (is_Some (rafId v)) then 1 else 0
          | _ => 0
          end)%nat
  /\ bool_decide (is_Some (rafId (step e v)))
     = match e with
       | Update => true
       | Frame => false
       | Destroy => bool_decide (is_Some (rafId v))
       end.
Proof.
  intros [Hl Hq] He. unfold scheduled.
  destruct e; [| |discriminate]; cbn [step].
  - unfold update, scheduleRender. rewrite Hl.
    destruct (rafId v) as [h|] eqn:Hr.
    + rewrite Hr. repeat (split; [easy || lia|]). reflexivity.
    + cbn. rewrite Hq. repeat (split; [easy || lia|]). reflexivity.
  - unfold frame. rewrite Hq.
    destruct (rafId v) as [h|]; cbn;
      repeat (split; [easy || lia|]); reflexivity.
Qed.

Lemma scheduled_run events v :
  scheduled v -> forallb (fun e => negb (is_destroy e)) events = true ->
  scheduled (run events v)
  /\ renders (run events v)
     = (renders v
        + dirty_frames (bool_decide (is_Some (rafId v))) events)%nat.
Proof.
  revert v. induction events as [|e events IH]; intros v Hv Hnd.
  - cbn. split; [assumption|lia].
  - cbn [forallb] in Hnd. apply andb_prop in Hnd as [He Hnd].
    apply negb_true_iff in He.
    destruct (scheduled_step e v Hv He) as (Hv' & Hr & Hd).
    destruct (IH (step e v) Hv' Hnd) as [Hs Hn].
    change (run (e :: events) v) with (run events (step e v)).
    split; [assumption|]. rewrite Hn, Hr, Hd.
    destruct e; [| |discriminate]; cbn [dirty_frames].
    + lia.
    + destruct (rafId v); cbn; lia.
Qed.

Lemma destroy_stopped v : scheduled v -> stopped (destroy v).
Proof.
  intros [_ Hq]. unfold stopped, destroy. cbn. split; [reflexivity|].
  destruct (rafId v) as [h|]; [|assumption].
  cbn. rewrite Hq. cbn. now rewrite Nat.eqb_refl.
Qed.

Lemma stopped_step (e : Event) v :
  stopped v -> stopped (step e v) /\ renders (step e v) = renders v.
Proof.
  intros [Hl Hq]. destruct e; cbn [step].
  - unfold update. rewrite Hl. now repeat split.
  - unfold frame. rewrite Hq. cbn. now repeat split.
  - unfold destroy, stopped. cbn. repeat split.
    destruct (rafId v) as [h|]; [|assumption].
    cbn. now rewrite Hq.
Qed.

Lemma stopped_run events v :
  stopped v -> renders (run events v) = renders v.
Proof.
  revert v. induction events as [|e events IH]; intros v Hv; [reflexivity|].
  change (run (e :: events) v) with (run events (step e v)).
  destruct (stopped_step e v Hv) as [Hv' Hr]. now rewrite IH, Hr.
Qed.

(** X15.  A visualization built while the browser holds no animation frame
    callback draws once in its constructor and then once for every frame
    that follows at least one update not yet drawn, however many updates
    came before that frame; and after [destroy] it never draws again,
    whatever updates and frames follow. *)
Theorem updates_are_drawn_once_per_frame (b : Browser) events events' :
  frameCallbacks b = [] ->
  forallb (fun e => negb (is_destroy e)) events = true ->
  let v := run events (new_AlgorithmViz b) in
  renders v = (1 + dirty_frames false events)%nat
  /\ renders (run events' (destroy v)) = renders v.
Proof.
  intros Hb Hnd v.
  assert (H0 : scheduled (new_AlgorithmViz b)) by (now split).
  destruct (scheduled_run events _ H0 Hnd) as [Hs Hr].
  split; [exact Hr|].
  rewrite stopped_run by apply destroy_stopped, Hs. reflexivity.
Qed.

End RenderScheduleFacts.

(* ================================================================== *)
(** * The scenarios of the test-suite, evaluated *)

#[local] Existing Instance RefEngine.engine.
#[local] Existing Instance RefEngine.clock.

(** The relay protocol on a pair with one observer: an insertion typed on
    A while both are online, the same while B is offline, and an echo. *)
Lemma relay_protocol_witness :
  (let w := Scenario.watched in
   let w' := edit SlotA (Mutate (TextInsert 0 "hello")) w in
   trace w' = trace w ++ [PeerCall SlotB (CallApplyUpdate Scenario.hello remote);
                          Notify 7%nat (mkSyncEvent "A" "B" 19 1700000000000 live)]
   /\ text (peerB w') = "hello"
   /\ queueForA w' = [] /\ queueForB w' = [])
  /\ (let w := Scenario.B_away in
      let w' := edit SlotA (Mutate (TextInsert 0 "hello")) w in
      trace w' = trace w ++ [Notify 7%nat
                               (mkSyncEvent "A" "B" 19 1700000000000 queued)]
      /\ queueForB w' = [Scenario.hello]
      /\ text (peerB w') = "")
  /\ fire_update SlotB Scenario.hello remote Scenario.watched = Scenario.watched.
Proof.
  split; [|split].
  - destruct (relay_protocol Scenario.A Scenario.B [OnSyncEvent 7%nat] SlotA
                (doc (transact (TextInsert 0 "hello") Scenario.A).1)
                Scenario.hello OriginNull eq_refl eq_refl)
      as (H & _ & _ & _).
    { intros [E|[]]. discriminate E. }
    destruct (H eq_refl eq_refl) as (T & D & _ & QA & QB).
    cbv zeta. split; [exact T|]. split; [|split; [exact QA | exact QB]].
    exact (eq_trans (f_equal Y_text D) eq_refl).
  - destruct (relay_protocol Scenario.A Scenario.B
                [OnSyncEvent 7%nat; SetOnline "B" false] SlotA
                (doc (transact (TextInsert 0 "hello") Scenario.A).1)
                Scenario.hello OriginNull eq_refl eq_refl)
      as (_ & H & _ & _).
    { intros [E|[E|[]]]; discriminate E. }
    destruct (H eq_refl eq_refl) as (T & Q & _ & _ & PB).
    cbv zeta. split; [exact T|]. split; [exact Q|].
    exact (eq_trans (f_equal text PB) eq_refl).
  - destruct (relay_protocol Scenario.A Scenario.B [OnSyncEvent 7%nat] SlotB
                (doc Scenario.B) Scenario.hello remote eq_refl eq_refl)
      as (_ & _ & H & _).
    + intros [E|[]]. discriminate E.
    + apply H. reflexivity.
Defined.

(** Bringing A back online while B is online reconciles, once. *)
Lemma setOnline_reconciles_witness :
  exists w', setOnline "A" true Scenario.A_away = Ok w'
    /\ peerAOnline w' = true /\ peerBOnline w' = true
    /\ reconciliations (trace w') = 1%nat.
Proof.
  destruct (setOnline_reconciles "A" true Scenario.A_away SlotA eq_refl)
    as (w' & E & HA & HB & Hrec & _).
  destruct (Hrec eq_refl eq_refl) as [_ R].
  exists w'. repeat split; assumption.
Defined.

(** [setOnline('A', true)] on a pair that is already fully online runs
    [reconcile] all the same: the specification's wording of C2 fails. *)
Lemma setOnline_online_again_reconciles :
  ~ reconciles_only_on_transition.
Proof.
  intros H.
  destruct (H "A" true Scenario.pair
              (reconcile (set_peerAOnline true Scenario.pair)) SlotA
              eq_refl eq_refl) as (_ & _ & H3).
  assert (Hno : ~ (online SlotA Scenario.pair = false /\ true = true))
    by (intros [E _]; discriminate).
  specialize (H3 Hno). vm_compute in H3. discriminate.
Qed.

(** Over a replica that was edited before the engine was built, the same
    call brings the edit to B and reports it: the reconciliation it runs is
    a real one. *)
Example setOnline_online_again_syncs :
  let w := onSyncEvent 7%nat (new_SyncEngine Scenario.A_edited Scenario.B) in
  let w' := reconcile w in
  peerAOnline w = true /\ peerBOnline w = true /\ text (peerB w) = ""
  /\ setOnline "A" true w = Ok w'
  /\ text (peerB w') = "early"
  /\ deliveries 7%nat (trace w')
     = [Notify 7%nat (mkSyncEvent "A" "B" 19 1700000000000 reconnect)].
Proof. cbv zeta. repeat (split; [reflexivity|]). reflexivity. Qed.

(** Both online again: both queues are empty.  A queue that holds an entry:
    a slot is offline.  A queue that grows: the link was down. *)
Lemma queues_only_while_link_down_witness :
  (let w := run [SetOnline "A" false; Edits SlotB IncrementCounter;
                 SetOnline "A" true] Scenario.pair in
   queueForA w = [] /\ queueForB w = [])
  /\ (let w := run [SetOnline "A" false; Edits SlotB IncrementCounter]
                 Scenario.pair in
      peerAOnline w = false \/ peerBOnline w = false)
  /\ (peerAOnline Scenario.A_away = false \/ peerBOnline Scenario.A_away = false).
Proof.
  destruct queues_only_while_link_down as (H1 & H2 & H3).
  split; [|split]; cbv zeta.
  - apply H1; [|reflexivity..].
    exists Scenario.A, Scenario.B. eexists. reflexivity.
  - apply (H2 _ SlotA).
    + exists Scenario.A, Scenario.B. eexists. reflexivity.
    + vm_compute. discriminate.
  - apply (H3 Scenario.A_away (Edits SlotB IncrementCounter) SlotA).
    vm_compute. lia.
Defined.

(** With A offline and B online, an edit on A is queued for B: the queue
    addressed to B holds an entry while B is online. *)
Lemma queued_for_online_destination :
  ~ queued_only_for_offline_destination.
Proof.
  intros H.
  assert (Hr : reachable (run [SetOnline "A" false; Edits SlotA IncrementCounter]
                            Scenario.pair)).
  { exists Scenario.A, Scenario.B. eexists. reflexivity. }
  specialize (H _ Hr SlotB). vm_compute in H.
  assert (E : true = false) by (apply H; discriminate).
  discriminate.
Qed.


(** After [destroy], the observer of the pair hears nothing of an edit and
    of a reconnection. *)
Lemma destroy_idempotent_witness :
  let acts := [Edits SlotA (Mutate (TextInsert 0 "x")); SetOnline "A" true] in
  deliveries 7%nat (trace (run acts (destroy Scenario.watched))) = [].
Proof.
  cbv zeta.
  destruct (destroy_idempotent Scenario.watched) as (_ & _ & H & _).
  rewrite (H 7%nat).
  - reflexivity.
  - intros [E|[E|[]]]; discriminate.
Defined.

(** A callback registered three times, removed by one call. *)
Lemma offSyncEvent_removes_every_registration_witness :
  let w := onSyncEvent 8%nat (onSyncEvent 7%nat (onSyncEvent 7%nat Scenario.watched)) in
  let w' := offSyncEvent 7%nat w in
  listeners w' = [8%nat]
  /\ count_occ Nat.eq_dec (listeners w') 8%nat = 1%nat
  /\ deliveries 7%nat
       (trace (run [Edits SlotA (Mutate (TextInsert 0 "a"))] w')) = []
  /\ offSyncEvent 9%nat w = w.
Proof.
  cbv zeta.
  destruct (offSyncEvent_removes_every_registration 7%nat
              (onSyncEvent 8%nat
                 (onSyncEvent 7%nat (onSyncEvent 7%nat Scenario.watched))))
    as (_ & _ & Hc & _ & Hr & _).
  destruct (offSyncEvent_removes_every_registration 9%nat
              (onSyncEvent 8%nat
                 (onSyncEvent 7%nat (onSyncEvent 7%nat Scenario.watched))))
    as (_ & _ & _ & _ & _ & Hn).
  split; [reflexivity|]. split; [|split].
  - rewrite (Hc 8%nat); [reflexivity | discriminate].
  - rewrite Hr; [reflexivity|]. intros [E|[]]; discriminate.
  - apply Hn. vm_compute. intros [E|[E|[E|[E|[]]]]]; discriminate.
Defined.

(** [peer.test.ts]: a fresh replica totals 0; after two increments and a
    decrement it totals 1. *)
Lemma getCounterTotal_is_sum_witness :
  getCounterTotal Scenario.A = 0
  /\ (let p := replay [IncrementCounter; IncrementCounter; DecrementCounter]
                 Scenario.A in
      getCounterTotal p = 1
      /\ forEach_total (map snd (map_to_list (counters p))) = 1).
Proof.
  split.
  - apply (getCounterTotal_is_sum (forEach := RefEngineLaws.forEach_contract)
             Scenario.A).
    reflexivity.
  - cbv zeta.
    destruct (getCounterTotal_is_sum (forEach := RefEngineLaws.forEach_contract)
                (replay [IncrementCounter; IncrementCounter; DecrementCounter]
                   Scenario.A)) as [_ H].
    assert (E : counters (replay [IncrementCounter; IncrementCounter;
                                  DecrementCounter] Scenario.A)
                = Finite <$> ({[ "A" := 1 ]} : gmap string Z))
      by reflexivity.
    destruct (H _ E) as [H1 H2].
    + apply Z.leb_le. reflexivity.
    + split; [exact H1|]. apply H2. reflexivity.
Defined.

(** With 2^53 under one key and 1 under another, the total is 2^53: the
    unit is lost, and the total is not the sum. *)
Lemma total_loses_a_unit : ~ total_is_always_the_sum.
Proof.
  intros H.
  assert (E : counters Scenario.A_large
              = Finite <$> ({[ "A" := 1; "B" := SAFE ]} : gmap string Z))
    by reflexivity.
  specialize (H Scenario.A_large _ E).
  vm_compute in H. discriminate H.
Qed.

(** [peer.test.ts], "starts counter at 0 when no key exists". *)
Lemma unset_counter_reads_zero_witness :
  current Scenario.A = 0
  /\ counters (decrementCounter Scenario.A).1 !! "A" = Some (Finite (-1))
  /\ counters (incrementCounter Scenario.A).1 !! "A" = Some (Finite 1).
Proof.
  destruct (unset_counter_reads_zero (contract := RefEngineLaws.map_contract))
    as [H _].
  destruct (H Scenario.A eq_refl) as (H0 & _ & _ & Hi & Hd).
  repeat split; assumption.
Defined.


(* ================================================================== *)
(** * More scenarios: flags, names, reconnection, counters *)

(** [sync-engine.test.ts]: after [setOnline('B', false)], B reads offline
    and A reads as before. *)
Lemma setOnline_isPeerOnline_witness :
  isPeerOnline "B" Scenario.B_away = Ok false
  /\ isPeerOnline "A" Scenario.B_away = isPeerOnline "A" Scenario.watched.
Proof.
  destruct (setOnline_isPeerOnline "B" false Scenario.watched Scenario.B_away
              eq_refl) as [H1 H2].
  split; [exact H1|]. apply (H2 "A"). discriminate.
Defined.

(** Two replicas both named P: taking P offline leaves slot B online. *)
Lemma shared_name_hides_slot_B_witness :
  let w := new_SyncEngine (new_CRDTPeer "P" 1%positive)
             (new_CRDTPeer "P" 2%positive) in
  let w' := set_peerAOnline false w in
  setOnline "P" false w = Ok w'
  /\ peerBOnline w' = true
  /\ isPeerOnline "P" w' = Ok false.
Proof.
  cbv zeta.
  set (w := new_SyncEngine (new_CRDTPeer "P" 1%positive)
              (new_CRDTPeer "P" 2%positive)).
  destruct (shared_name_hides_slot_B w eq_refl) as [H1 _].
  destruct (H1 "P" false (set_peerAOnline false w) eq_refl) as [HB HN].
  split; [reflexivity|]. split; [exact HB|].
  destruct (shared_name_hides_slot_B (set_peerAOnline false w) HN) as [_ H2].
  destruct (isPeerOnline "P" (set_peerAOnline false w)) as [r|msg] eqn:E;
    [|discriminate E].
  now rewrite (H2 "P" r E).
Defined.

(** A comes back after B typed: both hold the text, and the queues are
    empty. *)
Lemma reconnect_converges_witness :
  let w := run [SetOnline "A" false; Edits SlotB (Mutate (TextInsert 0 "typed"))]
             Scenario.pair in
  let w' := reconcile (set_peerAOnline true w) in
  setOnline "A" true w = Ok w'
  /\ text (peerA w) = ""
  /\ text (peerA w') = "typed"
  /\ doc (peerB w') = doc (peerA w')
  /\ queueForA w' = [].
Proof.
  cbv zeta.
  set (w := run [SetOnline "A" false; Edits SlotB (Mutate (TextInsert 0 "typed"))]
              Scenario.pair).
  destruct (reconnect_converges (contract := RefEngineLaws.merge_contract)
              "A" w (reconcile (set_peerAOnline true w))
              eq_refl eq_refl eq_refl) as (D & E & QA & _).
  split; [reflexivity|]. split; [reflexivity|].
  split; [exact (eq_trans (f_equal Y_text D) eq_refl)|].
  split; [exact E | exact QA].
Defined.

(** An edit, a disconnection with an edit on the other side, and the
    reconnection: the two documents are equal. *)
Lemma online_replicas_agree_witness :
  let w := run [Edits SlotA (Mutate (TextInsert 0 "hi")); SetOnline "B" false;
                Edits SlotB IncrementCounter; SetOnline "B" true]
             Scenario.pair in
  doc (peerA w) = doc (peerB w).
Proof.
  cbv zeta.
  apply (online_replicas_agree (contract := RefEngineLaws.merge_contract)
           Scenario.A Scenario.B
           [Edits SlotA (Mutate (TextInsert 0 "hi")); SetOnline "B" false;
            Edits SlotB IncrementCounter; SetOnline "B" true]);
    try reflexivity.
  split; reflexivity.
Defined.

(** After [destroy], with B taken offline: a click on A's plus button
    queues nothing and calls nobody. *)
Lemma destroyed_engine_relays_nothing_witness :
  let w := run [SetOnline "B" false]
             (destroy (run [OnSyncEvent 7%nat] Scenario.pair)) in
  let w' := edit SlotA IncrementCounter w in
  queueForB w' = [] /\ trace w' = trace w
  /\ getCounterTotal (peerA w') = 1.
Proof.
  cbv zeta.
  rewrite (destroyed_engine_relays_nothing Scenario.A Scenario.B
             [OnSyncEvent 7%nat] [SetOnline "B" false] eq_refl eq_refl
             SlotA IncrementCounter).
  split; [reflexivity|]. split; reflexivity.
Defined.

(** B offline: the four edits on A wait in the queue for B, in order, and
    B is not touched. *)
Lemma offline_edits_are_queued_witness :
  let w := Scenario.B_away in
  let w' := run (map (Edits SlotA) Scenario.edits) w in
  length (queueForB w') = 4%nat
  /\ queueForA w' = []
  /\ peerB w' = peerB w
  /\ getCounterTotal (peerA w') = 1.
Proof.
  cbv zeta.
  destruct (offline_edits_are_queued Scenario.edits SlotA Scenario.B_away)
    as (Q & Q' & P & P'); [split; reflexivity | reflexivity |].
  split; [exact (eq_trans (f_equal (@length _) Q) eq_refl)|].
  split; [exact Q'|]. split; [exact P|].
  exact (eq_trans (f_equal getCounterTotal P') eq_refl).
Defined.

(** [peer.test.ts]: two clicks on plus and one on minus total 1. *)
Lemma clicks_add_up_witness :
  let p := replay [IncrementCounter; IncrementCounter; DecrementCounter]
             Scenario.A in
  current p = 1 /\ getCounterTotal p = 1.
Proof.
  cbv zeta.
  assert (E : counters Scenario.A = Finite <$> (∅ : gmap string Z))
    by reflexivity.
  destruct (clicks_add_up (contract := RefEngineLaws.map_contract)
              (forEach := RefEngineLaws.forEach_contract)
              [IncrementCounter; IncrementCounter; DecrementCounter]
              Scenario.A ∅)
    as (H1 & H2 & _).
  - repeat constructor.
  - exact E.
  - apply Z.leb_le. reflexivity.
  - split; [exact (eq_trans H1 eq_refl) | exact (eq_trans H2 eq_refl)].
Defined.


(* ================================================================== *)
(** * More scenarios: the panels, the log, the controls, the visualization *)

(** A remote insertion of three units at index 2 moves a caret at 5 to a
    position of the new text; a remote deletion behind the caret leaves it. *)
Lemma adjusted_caret_stays_in_text_witness :
  (PeerPanel.adjust_cursor
     [PeerPanel.mkDeltaOp (Some 2%nat) None None;
      PeerPanel.mkDeltaOp None
        (Some (PeerPanel.InsertedString [97; 98; 99]%nat)) None]
     5 <= 9)%nat
  /\ PeerPanel.adjust_cursor (Char := nat)
       [PeerPanel.mkDeltaOp (Some 4%nat) None None;
        PeerPanel.mkDeltaOp None None (Some 2%nat)]
       3
     = 3%nat.
Proof.
  split.
  - apply (PeerPanelFacts.adjusted_caret_stays_in_text _ 5 6 9);
      [reflexivity | lia].
  - apply (proj2 (PeerPanelFacts.adjusted_caret_stays_in_text
                    (Char := nat)
                    [PeerPanel.mkDeltaOp (Some 4%nat) None None;
                     PeerPanel.mkDeltaOp None None (Some 2%nat)]
                    3 6 4 eq_refl ltac:(lia))
             (PeerPanel.mkDeltaOp (Some 4%nat) None None)
             [PeerPanel.mkDeltaOp None None (Some 2%nat)] 4%nat);
      [reflexivity | reflexivity | lia].
Defined.

(** Eighty-five events: the log holds eighty entries and is scrolled to its
    end. *)
Lemma log_keeps_the_latest_entries_witness :
  let toLocaleTimeString := fun _ : Z => "12:00:00" in
  let scrollHeight := fun body : list UpdateLog.Entry => (20 * length body)%nat in
  let log := UpdateLog.logged toLocaleTimeString scrollHeight
               (repeat (mkSyncEvent "A" "B" 19 1700000000000 live) 85) in
  length (UpdateLog.entries log) = 80%nat
  /\ UpdateLog.scrollTop log = 1600%nat.
Proof.
  cbv zeta.
  destruct (UpdateLogFacts.log_keeps_the_latest_entries
              (fun _ : Z => "12:00:00")
              (fun body : list UpdateLog.Entry => (20 * length body)%nat)
              (repeat (mkSyncEvent "A" "B" 19 1700000000000 live) 85))
    as (_ & B & L & _ & S).
  split; [exact L|].
  rewrite S by discriminate. rewrite B, L. reflexivity.
Defined.

(** A click on B's button while both are online: B goes offline without a
    reconciliation, its button reads offline, the line is disconnected. *)
Lemma toggle_flips_one_peer_witness :
  let online_button (n : string) :=
    NetworkControls.mkButton "btn btn-net online"
      [NetworkControls.NetDot;
       NetworkControls.TextNode (String.append " " (String.append n " — Online"))] in
  let ui := NetworkControls.mkNetworkControls Scenario.pair "A" "B"
              (online_button "A") (online_button "B")
              "status-dot online" "status-dot online" false in
  exists ui',
    NetworkControls.toggle SlotB ui = (ui', None)
    /\ peerBOnline (NetworkControls.engine ui') = false
    /\ peerAOnline (NetworkControls.engine ui') = true
    /\ reconciliations (trace (NetworkControls.engine ui')) = 0%nat
    /\ NetworkControls.className (NetworkControls.buttonB ui')
       = "btn btn-net offline"
    /\ NetworkControls.statusDotB ui' = "status-dot offline"
    /\ NetworkControls.disconnected ui' = true.
Proof.
  cbv zeta.
  destruct (NetworkControlsFacts.toggle_flips_one_peer SlotB
              (NetworkControls.mkNetworkControls Scenario.pair "A" "B"
                 (NetworkControls.mkButton "btn btn-net online"
                    [NetworkControls.NetDot;
                     NetworkControls.TextNode
                       (String.append " " (String.append "A" " — Online"))])
                 (NetworkControls.mkButton "btn btn-net online"
                    [NetworkControls.NetDot;
                     NetworkControls.TextNode
                       (String.append " " (String.append "B" " — Online"))])
                 "status-dot online" "status-dot online" false))
    as (ui' & T & _ & On & Off & R & C & D & _ & _ & L).
  { split; [reflexivity|]. split; [reflexivity|].
    change ("A" <> "B"). discriminate. }
  exists ui'.
  assert (HB : peerBOnline (NetworkControls.engine ui') = false)
    by exact On.
  assert (HA : peerAOnline (NetworkControls.engine ui') = true)
    by exact Off.
  split; [exact T|]. split; [exact HB|]. split; [exact HA|].
  split; [exact R|].
  cbn [NetworkControls.button NetworkControls.statusDot online] in C, D.
  rewrite HB in C, D. rewrite HA, HB in L.
  split; [exact C|]. split; [exact D | exact L].
Defined.

(** An item of client 1, an item without a string, a deleted item: the
    third unit listed is the deleted one, with its own clock. *)
Lemma extractItems_lists_every_unit_witness :
  let chain := [AlgorithmViz.mkYItem 1 0 (Some [97; 98]%nat) false;
                AlgorithmViz.mkYItem 2 0 None false;
                AlgorithmViz.mkYItem 1 2 (Some [99%nat]) true] in
  AlgorithmViz.extractItems chain !! 2%nat
  = Some (AlgorithmViz.mkCharInfo 99%nat 1 2 true)
  /\ length (AlgorithmViz.extractItems chain) = 3%nat.
Proof.
  cbv zeta.
  destruct (AlgorithmVizFacts.extractItems_lists_every_unit
              [AlgorithmViz.mkYItem 1 0 (Some [97; 98]%nat) false;
               AlgorithmViz.mkYItem 2 0 None false;
               AlgorithmViz.mkYItem 1 2 (Some [99%nat]) true])
    as (_ & L & P).
  split; [|exact L].
  exact (P [AlgorithmViz.mkYItem 1 0 (Some [97; 98]%nat) false;
            AlgorithmViz.mkYItem 2 0 None false]
           (AlgorithmViz.mkYItem 1 2 (Some [99%nat]) true) [] 0%nat 99%nat
           eq_refl eq_refl).
Defined.

(** Three updates before a frame are drawn once, a frame without an update
    draws nothing, and nothing is drawn after [destroy]. *)
Lemma updates_are_drawn_once_per_frame_witness :
  let v := RenderSchedule.run
             [RenderSchedule.Update; RenderSchedule.Update;
              RenderSchedule.Update; RenderSchedule.Frame;
              RenderSchedule.Frame; RenderSchedule.Update;
              RenderSchedule.Frame; RenderSchedule.Update]
             (RenderSchedule.new_AlgorithmViz (RenderSchedule.mkBrowser 0 [])) in
  RenderSchedule.renders v = 3%nat
  /\ RenderSchedule.renders
       (RenderSchedule.run
          [RenderSchedule.Frame; RenderSchedule.Update; RenderSchedule.Frame]
          (RenderSchedule.destroy v))
     = 3%nat.
Proof.
  cbv zeta.
  destruct (RenderScheduleFacts.updates_are_drawn_once_per_frame
              (RenderSchedule.mkBrowser 0 [])
              [RenderSchedule.Update; RenderSchedule.Update;
               RenderSchedule.Update; RenderSchedule.Frame;
               RenderSchedule.Frame; RenderSchedule.Update;
               RenderSchedule.Frame; RenderSchedule.Update]
              [RenderSchedule.Frame; RenderSchedule.Update; RenderSchedule.Frame]
              eq_refl eq_refl) as [H1 H2].
  split; [exact H1|]. exact (eq_trans H2 H1).
Defined.


(* ================================================================== *)
(** * The limits of the corrected claims *)


(** The same two runs, evaluated. *)
Example queue_then_reconcile_texts :
  let w := new_SyncEngine Scenario.A Scenario.B_edited in
  let onB := [Edits SlotB IncrementCounter] in
  text (peerA (run (SetOnline "A" false :: onB ++ [SetOnline "A" true]) w))
  = "early"
  /\ text (peerA (run onB w)) = "".
Proof. cbv zeta. split; reflexivity. Qed.

(** ** Numbers *)

(** The sums of [Number_add] are those of binary64 addition, on the edges
    of the whole numbers: around 2^53, at ties, and at the overflow. *)
Example Number_add_is_binary64_addition :
  Forall (fun v : Z * Z =>
            Number_to_binary64 (Number_add (Finite v.1) (Finite v.2))
            = SFadd 53 1024 (Number_to_binary64 v.1) (Number_to_binary64 v.2))
    [(0, 1); (1, -1); (SAFE, 1); (SAFE, 2); (SAFE, 3); (SAFE + 2, 1);
     (SAFE + 2, 3); (SAFE + 4, 1); (- SAFE, -1); (- SAFE - 2, -1);
     (SAFE - 1, 1); (SAFE - 1, 2); (SAFE - 1, SAFE - 1);
     (2 ^ 54, 2); (2 ^ 54, 6); (2 ^ 60, 2 ^ 7); (2 ^ 60, 2 ^ 8);
     (2 ^ 60, 3 * 2 ^ 7); (2 ^ 100, - 2 ^ 46); (2 ^ 100, - 3 * 2 ^ 46);
     (2 ^ 1023, 2 ^ 1023); (MAX_VALUE, 1); (MAX_VALUE, 2 ^ 969);
     (MAX_VALUE, 2 ^ 970); (MAX_VALUE, MAX_VALUE); (- MAX_VALUE, - 2 ^ 970);
     (MAX_VALUE, - MAX_VALUE)].
Proof. repeat (constructor; [vm_compute; reflexivity|]). constructor. Qed.

(** The total of 2^53, 1 and 1 depends on the order of the traversal. *)
Example forEach_total_order :
  forEach_total [Finite SAFE; Finite 1; Finite 1] = Finite SAFE
  /\ forEach_total [Finite 1; Finite 1; Finite SAFE] = Finite (SAFE + 2).
Proof. split; reflexivity. Qed.

(** ** The shared text *)

(** "hi" retyped to "hey": one deletion, one insertion, and the shared text
    follows the textarea. *)
Lemma input_ops_replay_the_change_witness :
  let t : list N := [104; 105]%N in
  let newValue : list N := [104; 101; 121]%N in
  PeerPanel.input_ops false t newValue
  = Some [PeerPanel.OpDelete 1 1; PeerPanel.OpInsert 1 [101; 121]%N]
  /\ PeerPanel.toString (SharedText := RefText.text)
       (PeerPanel.apply_ops (H := RefText.text)
          [PeerPanel.OpDelete 1 1; PeerPanel.OpInsert 1 [101; 121]%N] t)
     = newValue.
Proof.
  cbv zeta.
  destruct (PeerPanelFacts.input_ops_replay_the_change id
              (T := RefText.text) (contract := RefTextLaws.text_contract)
              [104; 105]%N [104; 101; 121]%N)
    as (_ & ops & E & _ & _ & _ & _ & R).
  assert (Hops : ops = [PeerPanel.OpDelete 1 1;
                        PeerPanel.OpInsert 1 [101; 121]%N])
    by (injection E as <-; reflexivity).
  rewrite Hops in R. split; [reflexivity|].
  apply R. intros op k [<-|[<-|[]]] Hk; cbn in Hk;
    repeat (destruct Hk as [<-|Hk]; [reflexivity|]); destruct Hk.
Defined.

(** An emoji replaced by its neighbour in the alphabet, U+1F600 by U+1F601:
    the two texts share the first half of the pair, the handler cuts behind
    it, and the shared text no longer is what the textarea shows. *)
Example input_ops_cut_a_surrogate_pair :
  let t : list N := [55357; 56832]%N in
  let newValue : list N := [55357; 56833]%N in
  PeerPanel.input_ops false t newValue
  = Some [PeerPanel.OpDelete 1 1; PeerPanel.OpInsert 1 [56833]%N]
  /\ PeerPanel.toString (SharedText := RefText.text)
       (PeerPanel.apply_ops (H := RefText.text)
          [PeerPanel.OpDelete 1 1; PeerPanel.OpInsert 1 [56833]%N] t)
     = [65533; 56833]%N.
Proof. cbv zeta. split; reflexivity. Qed.
